(** * A spatial hash grid for entity handles (server/world/spatial.go)

    Shallow embedding of [spatialGrid] and its methods, and the properties
    of the grid that its specification states.

    Modelling decisions, all taken from the Go source:
    - [int32] values are integers in [-2^31, 2^31), arithmetic results are
      wrapped with [Int32.wrap]; [/] on [int32] is Go's truncating division and
      panics on a zero divisor (modelled as [None]);
    - [float64] is IEEE 754 binary64, taken from the Standard Library's
      executable specification [spec_float] (precision 53, emax 1024);
    - [*EntityHandle] is a pointer: a handle is an address, [==] is address
      equality, and [handle.data.Pos] is read from a heap that the caller
      owns and may change between two calls;
    - a slice [[]*EntityHandle] held in the map is owned by its map entry
      (query results are fresh slices), so it is a list;
    - the [sync.RWMutex] is not part of the sequential model. *)

From Stdlib Require Import ZArith Lia.
From Stdlib Require Import Floats.SpecFloat.
From stdpp Require Import base option list gmap fin_maps.

Local Open Scope Z_scope.
Local Set Warnings "-clear-no-such-hyp".

(** ** 32-bit signed integers *)

Module Int32.

Definition min_int : Z := - 2 ^ 31.
Definition max_int : Z := 2 ^ 31 - 1.

Definition in_range (z : Z) : Prop := min_int <= z <= max_int.

Definition in_rangeb (z : Z) : bool := (min_int <=? z) && (z <=? max_int).

(** Two's-complement wrap-around of an integer result. *)
Definition wrap (z : Z) : Z := (z + 2 ^ 31) mod 2 ^ 32 - 2 ^ 31.

(** Go's [a / b] on [int32]: truncation toward zero, a run-time panic when
    [b] is zero, and [MinInt32 / -1 = MinInt32] by wrap-around. *)
Definition div (a b : Z) : option Z :=
  if b =? 0 then None else Some (wrap (a ÷ b)).

(** [x++] on an [int32] loop variable. *)
Definition incr (x : Z) : Z := wrap (x + 1).

End Int32.

(** ** float64 *)

Module Float64.

Definition prec : Z := 53.
Definition emax : Z := 1024.

Abbreviation float64 := spec_float (only parsing).

(** The values a Go [float64] can hold. *)
Definition valid (f : float64) : bool := valid_binary prec emax f.

Definition add (a b : float64) : float64 := SFadd prec emax a b.
Definition sub (a b : float64) : float64 := SFsub prec emax a b.
Definition mul (a b : float64) : float64 := SFmul prec emax a b.

(** Go's [a < b], [a <= b], [a > b], [a >= b]; all false on a NaN. *)
Definition lt (a b : float64) : bool := SFltb a b.
Definition le (a b : float64) : bool := SFleb a b.
Definition gt (a b : float64) : bool := SFltb b a.
Definition ge (a b : float64) : bool := SFleb b a.

(** The float64 nearest to an integer. *)
Definition of_Z (n : Z) : float64 := binary_normalize prec emax n 0 false.

(** [float64(n)] for an [int32] [n]: exact, since |n| < 2^53. *)
Definition of_int32 (n : Z) : float64 := of_Z n.

(** The integer part (toward zero) of a finite value; [None] on an
    infinity or a NaN. *)
Definition trunc (f : float64) : option Z :=
  match f with
  | S754_zero _ => Some 0
  | S754_finite s m e => Some (cond_Zopp s (Z.shiftl (Zpos m) e))
  | S754_infinity _ | S754_nan => None
  end.

(** The integer part lies in the [int32] range. *)
Definition fits_int32 (f : float64) : bool :=
  match trunc f with
  | Some z => Int32.in_rangeb z
  | None => false
  end.

(** [floor (f / d)] over the reals, for a finite [f] and a divisor
    [d > 0]: the value of [f] is [±m·2^e]. *)
Definition floor_div (f : float64) (d : Z) : option Z :=
  match f with
  | S754_zero _ => Some 0
  | S754_finite s m e =>
      if 0 <=? e then Some ((cond_Zopp s (Zpos m * 2 ^ e)) `div` d)
      else Some ((cond_Zopp s (Zpos m)) `div` (d * 2 ^ (- e)))
  | S754_infinity _ | S754_nan => None
  end.

End Float64.

Import Float64.

(** ** Vectors and boxes *)

(** [mgl64.Vec3], a [[3]float64]. *)
Record Vec3 := mkVec3 { vec0 : float64; vec1 : float64; vec2 : float64 }.

(** [cube.BBox]: the two corners. *)
Record BBox := mkBBox { Min : Vec3; Max : Vec3 }.

(** Modelled from the spec: [cube.Box], the constructor of the box type of
    package [cube], which is not among the sources. It builds the box with
    the given corner coordinates, and swaps the two values of an axis when
    the first exceeds the second so that [Min] is the lower corner. The
    grid's definitions take the constructor as a parameter; this is the
    instance the examples run with. *)
Definition cube_Box (x0 y0 z0 x1 y1 z1 : float64) : BBox :=
  let '(x0, x1) := if gt x0 x1 then (x1, x0) else (x0, x1) in
  let '(y0, y1) := if gt y0 y1 then (y1, y0) else (y0, y1) in
  let '(z0, z1) := if gt z0 z1 then (z1, z0) else (z0, z1) in
  mkBBox (mkVec3 x0 y0 z0) (mkVec3 x1 y1 z1).

(** Modelled from the spec: [cube.BBox.Vec3Within], the point-containment
    test of the box type, which is not among the sources: the point lies
    strictly between the two corners on each of the three axes. The grid's
    definitions take the test as a parameter; this is the instance the
    examples run with. *)
Definition cube_Vec3Within (box : BBox) (vec : Vec3) : bool :=
  if le (vec0 vec) (vec0 (Min box)) || ge (vec0 vec) (vec0 (Max box)) then false
  else if le (vec2 vec) (vec2 (Min box)) || ge (vec2 vec) (vec2 (Max box)) then false
  else gt (vec1 vec) (vec1 (Min box)) && lt (vec1 vec) (vec1 (Max box)).

(** ** Cells, handles, the grid *)

Record GridCell := mkGridCell { cellX : Z; cellZ : Z }.

Global Instance GridCell_eq_dec : EqDecision GridCell.
Proof. solve_decision. Defined.

Global Instance GridCell_countable : Countable GridCell.
Proof.
  refine (inj_countable' (fun c => (cellX c, cellZ c))
                         (fun p => mkGridCell p.1 p.2) _).
  by intros [].
Defined.

(** A [*EntityHandle]: the address of the handle. *)
Abbreviation EntityHandle := positive (only parsing).

(** [ChunkPos], a [[2]int32]. *)
Abbreviation ChunkPos := (Z * Z)%type (only parsing).

(** The caller's memory: [handle.data.Pos] of every handle. *)
Abbreviation Heap := (EntityHandle -> Vec3) (only parsing).

Record spatialGrid := mkGrid {
  cells : gmap GridCell (list EntityHandle);
  cellSize : Z
}.

Definition with_cells (g : spatialGrid) (m : gmap GridCell (list EntityHandle))
  : spatialGrid :=
  mkGrid m (cellSize g).

Definition newSpatialGrid (cellSize : Z) : spatialGrid := mkGrid ∅ cellSize.

(** [g.cells[cell]] read as a value: the nil slice for a missing key. *)
Definition bucket (g : spatialGrid) (cell : GridCell) : list EntityHandle :=
  default [] (cells g !! cell).

(** The index found by [for i, h := range handles { if h == handle ... }]. *)
Fixpoint index_of (handle : EntityHandle) (handles : list EntityHandle)
  : option nat :=
  match handles with
  | [] => None
  | h :: rest =>
      if decide (h = handle) then Some O else S <$> index_of handle rest
  end.

(** [append(handles[:i], handles[i+1:]...)]. *)
Definition slice_out (i : nat) (handles : list EntityHandle)
  : list EntityHandle :=
  take i handles ++ drop (S i) handles.

(** The scan-and-slice that [Remove] and [Update] share: the map is written
    only when the handle is found. *)
Definition remove_from (g : spatialGrid) (cell : GridCell)
    (handle : EntityHandle) : spatialGrid :=
  let handles := bucket g cell in
  match index_of handle handles with
  | Some i => with_cells g (<[cell := slice_out i handles]> (cells g))
  | None => g
  end.

(** [g.cells[cell] = append(g.cells[cell], handle)]. *)
Definition append_to (g : spatialGrid) (cell : GridCell)
    (handle : EntityHandle) : spatialGrid :=
  with_cells g (<[cell := bucket g cell ++ [handle]]> (cells g)).

Definition cellForChunkPos (g : spatialGrid) (pos : ChunkPos) : GridCell :=
  mkGridCell pos.1 pos.2.

Definition Clear (g : spatialGrid) : spatialGrid := with_cells g ∅.

(** [Count]: the sum of [len(handles)] over the map; Go's [int] has 64
    bits, more than the number of handles a memory can hold. *)
Definition Count (g : spatialGrid) : Z :=
  map_fold (fun _ handles total => total + Z.of_nat (length handles)) 0
           (cells g).

(** The inner loop of [QueryChunks] over one bucket, on [(seen, result)]. *)
Definition scan_seen (handles : list EntityHandle)
    (st : gmap EntityHandle bool * list EntityHandle)
  : gmap EntityHandle bool * list EntityHandle :=
  foldl (fun '(seen, result) h =>
           if default false (seen !! h) then (seen, result)
           else (<[h := true]> seen, result ++ [h]))
        st handles.

Definition QueryChunks (g : spatialGrid) (chunks : list ChunkPos)
  : list EntityHandle :=
  snd (foldl (fun st cp =>
                match cells g !! cellForChunkPos g cp with
                | None => st
                | Some handles => scan_seen handles st
                end)
             (∅, []) chunks).

(** A [for i := lo; i <= hi; i++] loop over an [int32] counter. The counter
    wraps, so the loop need not end: [None] when the fuel runs out or the
    body does not return. *)
Fixpoint for32 {A : Type} (fuel : nat) (i hi : Z)
    (body : Z -> A -> option A) (acc : A) : option A :=
  match fuel with
  | O => None
  | S fuel' =>
      if i <=? hi then
        match body i acc with
        | Some acc' => for32 fuel' (Int32.incr i) hi body acc'
        | None => None
        end
      else Some acc
  end.

Section Grid.

(** What [int32(f)] yields when the integer part of [f] is not an [int32]
    (or [f] is an infinity or a NaN): Go leaves this result to the
    implementation, so it is a parameter. *)
Variable oor32 : float64 -> Z.

(** Package [cube] is not among the sources: its box constructor and its
    point-containment test are parameters of the grid. *)
Variable Box : float64 -> float64 -> float64 ->
               float64 -> float64 -> float64 -> BBox.
Variable Vec3Within : BBox -> Vec3 -> bool.

(** [int32(f)]. *)
Definition int32_of_float64 (f : float64) : Z :=
  match trunc f with
  | Some z => if Int32.in_rangeb z then z else Int32.wrap (oor32 f)
  | None => Int32.wrap (oor32 f)
  end.

(** [None]: the division panics, the cell size being zero. *)
Definition cellForPos (g : spatialGrid) (pos : Vec3) : option GridCell :=
  x ← Int32.div (int32_of_float64 (vec0 pos)) (cellSize g);
  z ← Int32.div (int32_of_float64 (vec2 pos)) (cellSize g);
  Some (mkGridCell x z).

Definition Add (hp : Heap) (g : spatialGrid) (handle : EntityHandle)
  : option spatialGrid :=
  let pos := hp handle in
  cell ← cellForPos g pos;
  Some (append_to g cell handle).

Definition Remove (hp : Heap) (g : spatialGrid) (handle : EntityHandle)
  : option spatialGrid :=
  let pos := hp handle in
  cell ← cellForPos g pos;
  Some (remove_from g cell handle).

Definition Update (g : spatialGrid) (handle : EntityHandle)
    (oldPos newPos : Vec3) : option (spatialGrid * bool) :=
  oldCell ← cellForPos g oldPos;
  newCell ← cellForPos g newPos;
  if decide (oldCell = newCell) then Some (g, false)
  else
    let g1 := remove_from g oldCell handle in
    Some (append_to g1 newCell handle, true).

(** The handles of one cell that pass the box test, appended to [result]. *)
Definition scan_cell (hp : Heap) (g : spatialGrid) (box : BBox)
    (cell : GridCell) (result : list EntityHandle) : list EntityHandle :=
  match cells g !! cell with
  | None => result
  | Some handles =>
      foldl (fun result h =>
               if Vec3Within box (hp h) then result ++ [h] else result)
            result handles
  end.

(** [None]: [cellForPos] panics, or a loop has not ended within the fuel. *)
Definition QueryNearby (fuel : nat) (hp : Heap) (g : spatialGrid) (box : BBox)
  : option (list EntityHandle) :=
  minCell ← cellForPos g (Min box);
  maxCell ← cellForPos g (Max box);
  for32 fuel (cellX minCell) (cellX maxCell)
    (fun x result =>
       for32 fuel (cellZ minCell) (cellZ maxCell)
         (fun z result => Some (scan_cell hp g box (mkGridCell x z) result))
         result)
    [].

Definition QueryRadius (fuel : nat) (hp : Heap) (g : spatialGrid)
    (pos : Vec3) (radius : Z) : option (list EntityHandle) :=
  let box :=
    Box (sub (vec0 pos) (of_int32 radius)) (sub (vec1 pos) (of_int32 radius))
        (sub (vec2 pos) (of_int32 radius))
        (add (vec0 pos) (of_int32 radius)) (add (vec1 pos) (of_int32 radius))
        (add (vec2 pos) (of_int32 radius)) in
  QueryNearby fuel hp g box.


(** ** Histories of calls *)

(** One action of the caller: a call of a mutating method, or a write to
    [handle.data.Pos], which the grid does not see. *)
Inductive op :=
  | OpAdd (handle : EntityHandle)
  | OpRemove (handle : EntityHandle)
  | OpUpdate (handle : EntityHandle) (oldPos newPos : Vec3)
  | OpSetPos (handle : EntityHandle) (pos : Vec3).

Record world := mkWorld { heap : Heap; grid : spatialGrid }.

Definition set_pos (hp : Heap) (handle : EntityHandle) (pos : Vec3) : Heap :=
  fun h => if decide (h = handle) then pos else hp h.

Definition step (w : world) (o : op) : option world :=
  match o with
  | OpAdd h => g ← Add (heap w) (grid w) h; Some (mkWorld (heap w) g)
  | OpRemove h => g ← Remove (heap w) (grid w) h; Some (mkWorld (heap w) g)
  | OpUpdate h oldPos newPos =>
      r ← Update (grid w) h oldPos newPos; Some (mkWorld (heap w) r.1)
  | OpSetPos h pos => Some (mkWorld (set_pos (heap w) h pos) (grid w))
  end.

Fixpoint run (w : world) (tr : list op) : option world :=
  match tr with
  | [] => Some w
  | o :: tr' => w' ← step w o; run w' tr'
  end.

(** The handles that a history has added and not removed since. *)
Definition live_step (live : gset EntityHandle) (o : op) : gset EntityHandle :=
  match o with
  | OpAdd h => live ∪ {[h]}
  | OpRemove h => live ∖ {[h]}
  | OpUpdate _ _ _ | OpSetPos _ _ => live
  end.

Definition live_handles (tr : list op) : gset EntityHandle :=
  foldl live_step ∅ tr.

(** The position supplied at the most recent [Add] or [Update] of each
    handle that is in the grid. *)
Definition track (hp : Heap) (reg : gmap EntityHandle Vec3) (o : op)
  : gmap EntityHandle Vec3 :=
  match o with
  | OpAdd h => <[h := hp h]> reg
  | OpRemove h => delete h reg
  | OpUpdate h _ newPos => <[h := newPos]> reg
  | OpSetPos _ _ => reg
  end.

(** The caller's contract for one call: [Add] only a handle that is not in
    the grid; [Remove] a handle while its position is still in the cell it
    was filed under; [Update] a handle that is in the grid, with an
    [oldPos] in the cell it was filed under. *)
Definition obeys (w : world) (reg : gmap EntityHandle Vec3) (o : op) : bool :=
  match o with
  | OpAdd h => bool_decide (reg !! h = None)
  | OpRemove h =>
      match reg !! h with
      | Some p =>
          bool_decide (cellForPos (grid w) (heap w h) = cellForPos (grid w) p)
      | None => true
      end
  | OpUpdate h oldPos _ =>
      match reg !! h with
      | Some p =>
          bool_decide (cellForPos (grid w) oldPos = cellForPos (grid w) p)
      | None => false
      end
  | OpSetPos _ _ => true
  end.

Fixpoint lawful (w : world) (reg : gmap EntityHandle Vec3) (tr : list op)
  : bool :=
  match tr with
  | [] => true
  | o :: tr' =>
      obeys w reg o &&
      match step w o with
      | Some w' => lawful w' (track (heap w) reg o) tr'
      | None => false
      end
  end.

Fixpoint registry (w : world) (reg : gmap EntityHandle Vec3) (tr : list op)
  : gmap EntityHandle Vec3 :=
  match tr with
  | [] => reg
  | o :: tr' =>
      match step w o with
      | Some w' => registry w' (track (heap w) reg o) tr'
      | None => reg
      end
  end.

(** ** Definitions that follow the specification's words *)

(** The cell the specification's invariant names:
    [(floor(pos.x / cellSize), floor(pos.z / cellSize))]. *)
Definition floor_cell (g : spatialGrid) (pos : Vec3) : option GridCell :=
  x ← floor_div (vec0 pos) (cellSize g);
  z ← floor_div (vec2 pos) (cellSize g);
  Some (mkGridCell x z).

(** A handle occupies exactly the cell [c]. *)
Definition occupies_only (g : spatialGrid) (h : EntityHandle) (c : GridCell)
  : Prop :=
  ∀ c', h ∈ bucket g c' ↔ c' = c.

(** The box strictly contains the point, on the three axes. *)
Definition strictly_inside (box : BBox) (p : Vec3) : bool :=
  lt (vec0 (Min box)) (vec0 p) && lt (vec0 p) (vec0 (Max box)) &&
  lt (vec1 (Min box)) (vec1 p) && lt (vec1 p) (vec1 (Max box)) &&
  lt (vec2 (Min box)) (vec2 p) && lt (vec2 p) (vec2 (Max box)).

(** The cell lies in the rectangle of cells between two corner cells. *)
Definition in_cell_range (minCell maxCell c : GridCell) : Prop :=
  cellX minCell <= cellX c <= cellX maxCell ∧
  cellZ minCell <= cellZ c <= cellZ maxCell.

(** The handles of the cells between the two corner cells, in the order of
    [QueryNearby]'s two loops, whose current position passes the box
    test. *)
Definition nearby (hp : Heap) (g : spatialGrid) (box : BBox)
    (minCell maxCell : GridCell) : list EntityHandle :=
  x ← seqZ (cellX minCell) (cellX maxCell - cellX minCell + 1);
  z ← seqZ (cellZ minCell) (cellZ maxCell - cellZ minCell + 1);
  filter (fun h => Vec3Within box (hp h) = true) (bucket g (mkGridCell x z)).

(** Fuel that lets both loops of [QueryNearby] run to their ends. *)
Definition enough_fuel (minCell maxCell : GridCell) (fuel : nat) : Prop :=
  (Z.to_nat (cellX maxCell - cellX minCell + 1) < fuel)%nat ∧
  (Z.to_nat (cellZ maxCell - cellZ minCell + 1) < fuel)%nat.

(** A loop body run over a list of counter values. *)
Fixpoint fold_opt {A : Type} (body : Z -> A -> option A) (l : list Z)
    (acc : A) : option A :=
  match l with
  | [] => Some acc
  | i :: l' =>
      match body i acc with
      | Some acc' => fold_opt body l' acc'
      | None => None
      end
  end.

(** A list without its repetitions and without the handles of [seen], each
    element at the place of its first occurrence. *)
Fixpoint dedup_first (seen : gset EntityHandle) (l : list EntityHandle)
  : list EntityHandle :=
  match l with
  | [] => []
  | h :: l' =>
      if decide (h ∈ seen) then dedup_first seen l'
      else h :: dedup_first ({[h]} ∪ seen) l'
  end.

(** The seen-set of [QueryChunks] holds exactly the handles of [S]. *)
Definition seen_is (seen : gmap EntityHandle bool) (S : gset EntityHandle)
  : Prop :=
  ∀ h, default false (seen !! h) = true ↔ h ∈ S.

(** The handles resident in the requested chunks, in scan order. *)
Definition residents (g : spatialGrid) (chunks : list ChunkPos)
  : list EntityHandle :=
  cp ← chunks; bucket g (cellForChunkPos g cp).

(** The box with corners [pos - (r,r,r)] and [pos + (r,r,r)]. *)
Definition vec_sub (a b : Vec3) : Vec3 :=
  mkVec3 (sub (vec0 a) (vec0 b)) (sub (vec1 a) (vec1 b)) (sub (vec2 a) (vec2 b)).

Definition vec_add (a b : Vec3) : Vec3 :=
  mkVec3 (add (vec0 a) (vec0 b)) (add (vec1 a) (vec1 b)) (add (vec2 a) (vec2 b)).

Definition box_of_corners (a b : Vec3) : BBox :=
  Box (vec0 a) (vec1 a) (vec2 a) (vec0 b) (vec1 b) (vec2 b).

Definition radius_box (pos : Vec3) (radius : Z) : BBox :=
  let r := of_int32 radius in
  box_of_corners (vec_sub pos (mkVec3 r r r)) (vec_add pos (mkVec3 r r r)).

(** The squared Euclidean distance of two points, and the test that the
    distance exceeds a radius, in [float64] arithmetic. *)
Definition dist_sq (a b : Vec3) : float64 :=
  let d := vec_sub a b in
  add (add (mul (vec0 d) (vec0 d)) (mul (vec1 d) (vec1 d)))
      (mul (vec2 d) (vec2 d)).

Definition farther_than (a b : Vec3) (radius : Z) : bool :=
  lt (mul (of_int32 radius) (of_int32 radius)) (dist_sq a b).

(** Modelled from the spec: the world's chunk system, which is not among
    the sources. A chunk is a square of edge length [L] blocks; the chunk
    coordinate of a block coordinate [x] is [floor (x / L)]. *)
Definition chunk_coord (L x : Z) : Z := x `div` L.

(** A bucket without the first occurrence of a handle, the other handles
    in their order. *)
Fixpoint remove_first (h : EntityHandle) (l : list EntityHandle)
  : list EntityHandle :=
  match l with
  | [] => []
  | x :: l' => if decide (x = h) then l' else x :: remove_first h l'
  end.

(** The coordinates of one axis of a box and a point are float64 values,
    and the corners convert into [int32]. *)
Definition axis_in_range (a p b : float64) : bool :=
  valid a && valid p && valid b && fits_int32 a && fits_int32 b.

Definition box_in_range (box : BBox) (p : Vec3) : bool :=
  axis_in_range (vec0 (Min box)) (vec0 p) (vec0 (Max box)) &&
  axis_in_range (vec2 (Min box)) (vec2 p) (vec2 (Max box)).

(** ** The state that the caller's contract maintains *)

(** Every handle of the registry is filed once, in the cell of its
    registered position, no other handle is filed, and [Count] is the
    number of registered handles. *)
Record filed (g : spatialGrid) (reg : gmap EntityHandle Vec3) : Prop := {
  filed_where : ∀ h c,
    h ∈ bucket g c ↔ ∃ p, reg !! h = Some p ∧ cellForPos g p = Some c;
  filed_once : ∀ c, NoDup (bucket g c);
  filed_count : Count g = Z.of_nat (size reg)
}.

(** ** Data for the examples *)

(** The world after a history, or the initial world if a call panics. *)
Definition final (w : world) (tr : list op) : world := default w (run w tr).

(** The conversion of x86-64: the instruction behind [int32(f)] yields
    the "integer indefinite" value [0x80000000] when [f] is out of range. *)
Definition oor32_amd64 (f : float64) : Z := Int32.min_int.

(** A point with integer coordinates. *)
Definition pt (x y z : Z) : Vec3 := mkVec3 (of_Z x) (of_Z y) (of_Z z).

(** Handle 1 stands at (10, 0, 10), every other handle at (20, 0, 10). *)
Definition heap_AB : Heap :=
  fun h => if decide (h = 1%positive) then pt 10 0 10 else pt 20 0 10.

(** Every handle stands at (-1, 0, -1). *)
Definition heap_negative : Heap := fun _ => pt (-1) 0 (-1).

(** Every handle stands at the origin. *)
Definition heap_origin : Heap := fun _ => pt 0 0 0.

(** Every handle stands at (9, 0, 9). *)
Definition heap_corner : Heap := fun _ => pt 9 0 9.

(** Two handles are added, the first moves to another cell and is updated,
    the second is removed. *)
Definition history_AB : list op :=
  [OpAdd 1%positive; OpAdd 2%positive;
   OpSetPos 1%positive (pt 40 0 10);
   OpUpdate 1%positive (pt 10 0 10) (pt 40 0 10);
   OpRemove 2%positive].

(** Two handles are added. *)
Definition history_adds : list op := [OpAdd 1%positive; OpAdd 2%positive].

(** One handle is added twice, against the caller's contract. *)
Definition history_double_add : list op :=
  [OpAdd 1%positive; OpAdd 1%positive].

(** The box from (0, -5, 0) to (15, 20, 15); (10, 0, 10) is strictly
    inside. *)
Definition box_around_A : BBox :=
  cube_Box (of_Z 0) (of_Z (-5)) (of_Z 0) (of_Z 15) (of_Z 20) (of_Z 15).

(** The box from (17, -5, 0) to (30, 20, 15), in the cell next to the cell
    of (10, 0, 10) when the cell size is 16. *)
Definition box_beside_A : BBox :=
  cube_Box (of_Z 17) (of_Z (-5)) (of_Z 0) (of_Z 30) (of_Z 20) (of_Z 15).

(** The box from (-1, -1, -1) to (2147483647, 1, 1); the origin is strictly
    inside. *)
Definition box_to_max_int : BBox :=
  cube_Box (of_Z (-1)) (of_Z (-1)) (of_Z (-1))
           (of_Z Int32.max_int) (of_Z 1) (of_Z 1).

(** The cells between two corner cells as chunk positions, in the order of
    [QueryNearby]'s two loops. *)
Definition covered_chunks (minCell maxCell : GridCell) : list ChunkPos :=
  x ← seqZ (cellX minCell) (cellX maxCell - cellX minCell + 1);
  z ← seqZ (cellZ minCell) (cellZ maxCell - cellZ minCell + 1);
  [(x, z)].

(** Two handles are added, then the first is moved by its owner without an
    Update. *)
Definition history_moved : list op :=
  [OpAdd 1%positive; OpAdd 2%positive; OpSetPos 1%positive (pt 40 0 10)].

(** A grid of cell size 16 with handle 1 in cell (0, 0) and handle 2 in
    cell (1, 0), where [heap_AB] places them. *)
Definition grid_AB : spatialGrid :=
  mkGrid (<[mkGridCell 1 0 := [2%positive]]>
            (<[mkGridCell 0 0 := [1%positive]]> ∅)) 16.

(** ** Lemmas: integers *)

Lemma wrap_id (z : Z) : Int32.in_range z → Int32.wrap z = z.
Proof.
  unfold Int32.in_range, Int32.wrap, Int32.min_int, Int32.max_int. intros Hz.
  rewrite Z.mod_small; lia.
Qed.

Lemma wrap_in_range (z : Z) : Int32.in_range (Int32.wrap z).
Proof.
  unfold Int32.in_range, Int32.wrap, Int32.min_int, Int32.max_int.
  pose proof (Z.mod_pos_bound (z + 2 ^ 31) (2 ^ 32)). lia.
Qed.

Lemma in_rangeb_spec (z : Z) : Int32.in_rangeb z = true ↔ Int32.in_range z.
Proof. unfold Int32.in_rangeb, Int32.in_range. lia. Qed.

Lemma div_is_Some (a b : Z) :
  b ≠ 0 → Int32.div a b = Some (Int32.wrap (a ÷ b)).
Proof. intros Hb. unfold Int32.div. by destruct (Z.eqb_spec b 0). Qed.

Lemma quot_bound (a b : Z) : 0 <= a → b ≠ 0 → - a <= a ÷ b <= a.
Proof.
  intros Ha Hb. destruct (Z.lt_trichotomy b 0) as [Hneg|[?|Hpos]]; [|done|].
  - pose proof (Z.quot_opp_r a b Hb) as Ho.
    pose proof (Z.quot_pos a (- b) Ha ltac:(lia)).
    pose proof (Z.quot_le_upper_bound a (- b) a ltac:(lia)). nia.
  - pose proof (Z.quot_pos a b Ha Hpos).
    pose proof (Z.quot_le_upper_bound a b a Hpos). nia.
Qed.

Lemma div_positive (a b : Z) :
  0 < b → Int32.in_range a → Int32.div a b = Some (a ÷ b).
Proof.
  intros Hb Ha. rewrite div_is_Some by lia. f_equal. apply wrap_id.
  unfold Int32.in_range, Int32.min_int, Int32.max_int in *.
  destruct (Z.le_gt_cases 0 a) as [H0|H0].
  - pose proof (Z.quot_pos a b H0 Hb).
    pose proof (Z.quot_le_upper_bound a b a Hb). nia.
  - pose proof (Z.quot_opp_l a b ltac:(lia)).
    pose proof (Z.quot_pos (- a) b ltac:(lia) Hb).
    pose proof (Z.quot_le_upper_bound (- a) b (- a) Hb). nia.
Qed.

Lemma int32_of_float64_in_range (f : float64) :
  Int32.in_range (int32_of_float64 f).
Proof.
  unfold int32_of_float64. destruct (trunc f) as [z|]; [|apply wrap_in_range].
  destruct (Int32.in_rangeb z) eqn:Hz; [|apply wrap_in_range].
  by apply in_rangeb_spec.
Qed.

Lemma int32_of_float64_fits (f : float64) (z : Z) :
  trunc f = Some z → Int32.in_range z → int32_of_float64 f = z.
Proof.
  intros Hf Hz. unfold int32_of_float64. rewrite Hf.
  by apply in_rangeb_spec in Hz as ->.
Qed.

(** ** Lemmas: the cell of a position *)

Lemma cellForPos_eq (g : spatialGrid) (pos : Vec3) :
  cellSize g ≠ 0 →
  cellForPos g pos =
    Some (mkGridCell
            (Int32.wrap (int32_of_float64 (vec0 pos) ÷ cellSize g))
            (Int32.wrap (int32_of_float64 (vec2 pos) ÷ cellSize g))).
Proof. intros Hcs. unfold cellForPos. by rewrite !div_is_Some. Qed.

Lemma cellForPos_zero (g : spatialGrid) (pos : Vec3) :
  cellSize g = 0 → cellForPos g pos = None.
Proof. intros Hcs. unfold cellForPos, Int32.div. by rewrite Hcs. Qed.

Lemma cellForPos_cellSize (g g' : spatialGrid) (pos : Vec3) :
  cellSize g' = cellSize g → cellForPos g' pos = cellForPos g pos.
Proof. intros Hcs. unfold cellForPos. by rewrite Hcs. Qed.

Lemma cellForPos_in_range (g : spatialGrid) (pos : Vec3) (c : GridCell) :
  cellForPos g pos = Some c →
  Int32.in_range (cellX c) ∧ Int32.in_range (cellZ c).
Proof.
  destruct (decide (cellSize g = 0)) as [H0|H0].
  - by rewrite cellForPos_zero.
  - rewrite cellForPos_eq by done. intros [= <-]. simpl.
    split; apply wrap_in_range.
Qed.

(** ** Lemmas: scanning a bucket for a handle *)

Lemma index_of_None (h : EntityHandle) (l : list EntityHandle) :
  index_of h l = None ↔ h ∉ l.
Proof.
  induction l as [|x l IH]; simpl.
  - split; [intros _; apply not_elem_of_nil|done].
  - rewrite not_elem_of_cons. destruct (decide (x = h)) as [->|Hne].
    + split; [done|]. by intros [? _].
    + rewrite fmap_None, IH. split; [by intros ?; split|by intros [_ ?]].
Qed.

Lemma index_of_Some (h : EntityHandle) (l : list EntityHandle) (i : nat) :
  index_of h l = Some i →
  ∃ l1 l2, l = l1 ++ h :: l2 ∧ (h ∉ l1) ∧ length l1 = i ∧
           slice_out i l = l1 ++ l2.
Proof.
  revert i. induction l as [|x l IH]; intros i; simpl; [done|].
  destruct (decide (x = h)) as [->|Hne].
  - intros [= <-]. exists [], l. split_and!; try done. apply not_elem_of_nil.
  - intros Hi. apply fmap_Some in Hi as (j & Hj & ->).
    destruct (IH j Hj) as (l1 & l2 & -> & Hl1 & Hlen & Hs).
    exists (x :: l1), l2. split_and!; simpl; try done.
    + apply not_elem_of_cons. by split.
    + by rewrite Hlen.
    + unfold slice_out in *. simpl. by rewrite Hs.
Qed.

Lemma index_of_is_Some (h : EntityHandle) (l : list EntityHandle) :
  h ∈ l → is_Some (index_of h l).
Proof.
  intros Hin. destruct (index_of h l) eqn:E; [done|].
  by apply index_of_None in E.
Qed.

(** ** Lemmas: buckets after a write *)

Lemma bucket_with_cells_insert (g : spatialGrid) (c c' : GridCell)
    (l : list EntityHandle) :
  bucket (with_cells g (<[c := l]> (cells g))) c' =
    if decide (c = c') then l else bucket g c'.
Proof.
  unfold bucket, with_cells. simpl. rewrite lookup_insert.
  by destruct (decide (c = c')).
Qed.

Lemma bucket_append_to (g : spatialGrid) (c c' : GridCell) (h : EntityHandle) :
  bucket (append_to g c h) c' =
    if decide (c = c') then bucket g c ++ [h] else bucket g c'.
Proof. apply bucket_with_cells_insert. Qed.

Lemma bucket_remove_from_ne (g : spatialGrid) (c c' : GridCell)
    (h : EntityHandle) :
  c ≠ c' → bucket (remove_from g c h) c' = bucket g c'.
Proof.
  intros Hne. unfold remove_from. destruct (index_of h (bucket g c)); [|done].
  rewrite bucket_with_cells_insert. by destruct (decide (c = c')).
Qed.

Lemma bucket_remove_from_absent (g : spatialGrid) (c : GridCell)
    (h : EntityHandle) :
  h ∉ bucket g c → remove_from g c h = g.
Proof.
  intros Hnin. unfold remove_from. by apply index_of_None in Hnin as ->.
Qed.

Lemma bucket_remove_from_present (g : spatialGrid) (c : GridCell)
    (h : EntityHandle) :
  h ∈ bucket g c →
  ∃ l1 l2, bucket g c = l1 ++ h :: l2 ∧ (h ∉ l1) ∧
           remove_from g c h = with_cells g (<[c := l1 ++ l2]> (cells g)).
Proof.
  intros Hin. unfold remove_from.
  destruct (index_of_is_Some _ _ Hin) as [i Hi]. rewrite Hi.
  destruct (index_of_Some _ _ _ Hi) as (l1 & l2 & Hb & Hl1 & _ & Hs).
  exists l1, l2. by rewrite Hs.
Qed.

Lemma cellSize_append_to (g : spatialGrid) (c : GridCell) (h : EntityHandle) :
  cellSize (append_to g c h) = cellSize g.
Proof. done. Qed.

Lemma cellSize_remove_from (g : spatialGrid) (c : GridCell) (h : EntityHandle) :
  cellSize (remove_from g c h) = cellSize g.
Proof. unfold remove_from. by destruct (index_of h (bucket g c)). Qed.

(** ** Lemmas: Count *)

Lemma Count_with_cells_insert (g : spatialGrid) (c : GridCell)
    (l : list EntityHandle) :
  Count (with_cells g (<[c := l]> (cells g))) =
    Count g - Z.of_nat (length (bucket g c)) + Z.of_nat (length l).
Proof.
  unfold Count, bucket, with_cells. simpl.
  set (f := fun (_ : GridCell) (handles : list EntityHandle) (total : Z) =>
              total + Z.of_nat (length handles)).
  assert (Hcomm : ∀ (m : gmap GridCell (list EntityHandle)) j1 j2 z1 z2 y,
             j1 ≠ j2 → m !! j1 = Some z1 → m !! j2 = Some z2 →
             f j1 z1 (f j2 z2 y) = f j2 z2 (f j1 z1 y)).
  { intros. unfold f. lia. }
  rewrite <- (insert_delete_eq (cells g)).
  rewrite (map_fold_insert_L f); [|by eauto|by apply lookup_delete_eq].
  destruct (cells g !! c) as [l0|] eqn:E; simpl.
  - rewrite (map_fold_delete_L f 0 c l0 (cells g)); [|by eauto|done].
    unfold f. lia.
  - rewrite delete_id by done. unfold f. lia.
Qed.

Lemma Count_append_to (g : spatialGrid) (c : GridCell) (h : EntityHandle) :
  Count (append_to g c h) = Count g + 1.
Proof.
  unfold append_to. rewrite Count_with_cells_insert, length_app. simpl. lia.
Qed.

Lemma Count_remove_from_present (g : spatialGrid) (c : GridCell)
    (h : EntityHandle) :
  h ∈ bucket g c → Count (remove_from g c h) = Count g - 1.
Proof.
  intros Hin.
  destruct (bucket_remove_from_present g c h Hin) as (l1 & l2 & Hb & _ & ->).
  rewrite Count_with_cells_insert, Hb, !length_app. simpl. lia.
Qed.

(** ** Lemmas: the contract keeps every handle filed *)

Lemma filed_init (cs : Z) : filed (newSpatialGrid cs) ∅.
Proof.
  split.
  - intros h c. unfold bucket. simpl. rewrite lookup_empty. simpl. split.
    + by intros ?%elem_of_nil.
    + intros (p & Hp & _). by rewrite lookup_empty in Hp.
  - intros c. unfold bucket. simpl. rewrite lookup_empty. constructor.
  - unfold Count. simpl. by rewrite map_fold_empty, map_size_empty.
Qed.

Lemma filed_absent (g : spatialGrid) (reg : gmap EntityHandle Vec3)
    (h : EntityHandle) (c : GridCell) :
  filed g reg → reg !! h = None → h ∉ bucket g c.
Proof.
  intros F Hh Hin. apply (filed_where _ _ F) in Hin as (p & Hp & _).
  congruence.
Qed.

Lemma filed_append_to (g : spatialGrid) (reg : gmap EntityHandle Vec3)
    (h : EntityHandle) (p : Vec3) (c : GridCell) :
  filed g reg → reg !! h = None → cellForPos g p = Some c →
  filed (append_to g c h) (<[h := p]> reg).
Proof.
  intros F Hh Hc. split.
  - intros h' c'. rewrite bucket_append_to.
    setoid_rewrite (cellForPos_cellSize g (append_to g c h));
      [|apply cellSize_append_to].
    destruct (decide (h = h')) as [<-|Hne].
    + rewrite lookup_insert_eq. split.
      * intros Hin. exists p. split; [done|].
        destruct (decide (c = c')) as [<-|]; [done|].
        by apply (filed_absent _ _ _ _ F Hh) in Hin.
      * intros (p' & [= <-] & Hp'). rewrite Hc in Hp'. injection Hp' as <-.
        rewrite decide_True by done. apply elem_of_app. right.
        apply list_elem_of_singleton. done.
    + rewrite lookup_insert_ne by done. rewrite <- (filed_where _ _ F).
      destruct (decide (c = c')) as [<-|]; [|done].
      rewrite elem_of_app, list_elem_of_singleton.
      split; [intros [?|?]; [done|congruence]|by left].
  - intros c'. rewrite bucket_append_to.
    destruct (decide (c = c')) as [<-|]; [|apply (filed_once _ _ F)].
    apply NoDup_app. split_and!.
    + apply (filed_once _ _ F).
    + intros x Hx ->%list_elem_of_singleton.
      by apply (filed_absent _ _ _ _ F Hh) in Hx.
    + apply NoDup_singleton.
  - rewrite Count_append_to, (filed_count _ _ F).
    rewrite map_size_insert_None by done. lia.
Qed.

Lemma filed_remove_from (g : spatialGrid) (reg : gmap EntityHandle Vec3)
    (h : EntityHandle) (p : Vec3) (c : GridCell) :
  filed g reg → reg !! h = Some p → cellForPos g p = Some c →
  filed (remove_from g c h) (delete h reg).
Proof.
  intros F Hh Hc.
  assert (Hin : h ∈ bucket g c) by (apply (filed_where _ _ F); eauto).
  destruct (bucket_remove_from_present g c h Hin) as (l1 & l2 & Hb & Hl1 & ->).
  pose proof (filed_once _ _ F c) as Hnd. rewrite Hb in Hnd.
  apply NoDup_app in Hnd as (Hnd1 & Hdisj & Hnd2).
  apply NoDup_cons in Hnd2 as [Hl2 Hnd2].
  split.
  - intros h' c'. rewrite bucket_with_cells_insert.
    setoid_rewrite (cellForPos_cellSize g (with_cells g _)); [|done].
    destruct (decide (h = h')) as [<-|Hne].
    + rewrite lookup_delete_eq. split; [|by intros (? & ? & _)].
      intros Hin'. exfalso. destruct (decide (c = c')) as [<-|Hcc].
      * apply elem_of_app in Hin' as [?|?]; done.
      * apply (filed_where _ _ F) in Hin' as (p' & Hp' & Hc').
        congruence.
    + rewrite lookup_delete_ne by done. rewrite <- (filed_where _ _ F).
      destruct (decide (c = c')) as [<-|]; [|done].
      rewrite Hb, !elem_of_app, elem_of_cons.
      split; [intros [?|?]; auto|]. intros [?|[?|?]]; [auto|congruence|auto].
  - intros c'. rewrite bucket_with_cells_insert.
    destruct (decide (c = c')) as [<-|]; [|apply (filed_once _ _ F)].
    apply NoDup_app. split_and!; [done| |done].
    intros x Hx1 Hx2. apply (Hdisj x Hx1). by right.
  - rewrite Count_with_cells_insert, (filed_count _ _ F), Hb, !length_app.
    simpl. rewrite <- (insert_delete_id reg h p Hh) at 1.
    rewrite map_size_insert_None by apply lookup_delete_eq. lia.
Qed.

Lemma filed_refile (g : spatialGrid) (reg : gmap EntityHandle Vec3)
    (h : EntityHandle) (p p' : Vec3) :
  filed g reg → reg !! h = Some p → cellForPos g p' = cellForPos g p →
  filed g (<[h := p']> reg).
Proof.
  intros F Hh Hc. split.
  - intros h' c. rewrite (filed_where _ _ F).
    destruct (decide (h = h')) as [<-|Hne].
    + rewrite lookup_insert_eq. split.
      * intros (p0 & Hp0 & Hc0). exists p'. split; [done|]. congruence.
      * intros (p0 & [= <-] & Hc0). exists p. split; [done|]. congruence.
    + by rewrite lookup_insert_ne.
  - apply (filed_once _ _ F).
  - rewrite (filed_count _ _ F), map_size_insert_Some; [done|by eexists].
Qed.

Lemma step_cellSize (w w' : world) (o : op) :
  step w o = Some w' → cellSize (grid w') = cellSize (grid w).
Proof.
  destruct o as [h|h|h oldPos newPos|h pos]; simpl.
  - unfold Add. destruct (cellForPos _ _); simpl; [|done]. by intros [= <-].
  - unfold Remove. destruct (cellForPos _ _); simpl; [|done]. intros [= <-].
    apply cellSize_remove_from.
  - unfold Update. destruct (cellForPos _ oldPos); simpl; [|done].
    destruct (cellForPos _ newPos); simpl; [|done].
    case_decide; simpl; intros [= <-]; simpl; [done|].
    apply cellSize_remove_from.
  - by intros [= <-].
Qed.

Lemma filed_step (w w' : world) (reg : gmap EntityHandle Vec3) (o : op) :
  filed (grid w) reg → obeys w reg o = true → step w o = Some w' →
  filed (grid w') (track (heap w) reg o).
Proof.
  intros F Hob Hst. destruct o as [h|h|h oldPos newPos|h pos]; simpl in *.
  - apply bool_decide_eq_true in Hob. unfold Add in Hst.
    destruct (cellForPos (grid w) (heap w h)) as [c|] eqn:Hc; [|done].
    simpl in Hst. injection Hst as <-. simpl. by apply filed_append_to.
  - unfold Remove in Hst.
    destruct (cellForPos (grid w) (heap w h)) as [c|] eqn:Hc; [|done].
    simpl in Hst. injection Hst as <-. simpl.
    destruct (reg !! h) as [p|] eqn:Hh.
    + apply bool_decide_eq_true in Hob.
      apply (filed_remove_from _ _ _ p); [done..|congruence].
    + rewrite bucket_remove_from_absent by eauto using filed_absent.
      by rewrite delete_id.
  - destruct (reg !! h) as [p|] eqn:Hh; [|done].
    apply bool_decide_eq_true in Hob. unfold Update in Hst.
    destruct (cellForPos (grid w) oldPos) as [oc|] eqn:Hoc; [|done].
    destruct (cellForPos (grid w) newPos) as [nc|] eqn:Hnc; [|done].
    simpl in Hst. case_decide as Hcc; injection Hst as <-; simpl.
    + apply (filed_refile _ _ _ p); [done..|congruence].
    + rewrite <- insert_delete_eq. apply filed_append_to.
      * apply (filed_remove_from _ _ _ p); [done..|congruence].
      * apply lookup_delete_eq.
      * rewrite <- Hnc. apply cellForPos_cellSize, cellSize_remove_from.
  - by injection Hst as <-.
Qed.

Lemma lawful_runs (tr : list op) (w : world) (reg : gmap EntityHandle Vec3) :
  lawful w reg tr = true → is_Some (run w tr).
Proof.
  revert w reg. induction tr as [|o tr IH]; intros w reg; simpl; [by eexists|].
  intros [_ Hl]%andb_true_iff. destruct (step w o) as [w1|]; [|done].
  simpl. eauto.
Qed.

Lemma filed_run (tr : list op) (w w' : world) (reg : gmap EntityHandle Vec3) :
  filed (grid w) reg → lawful w reg tr = true → run w tr = Some w' →
  filed (grid w') (registry w reg tr).
Proof.
  revert w reg. induction tr as [|o tr IH]; intros w reg F; simpl.
  - by intros _ [= <-].
  - intros [Hob Hl]%andb_true_iff. destruct (step w o) as [w1|] eqn:Hst; [|done].
    simpl. eauto using filed_step.
Qed.

Lemma run_cellSize (tr : list op) (w w' : world) :
  run w tr = Some w' → cellSize (grid w') = cellSize (grid w).
Proof.
  revert w. induction tr as [|o tr IH]; intros w; simpl.
  - by intros [= <-].
  - destruct (step w o) as [w1|] eqn:Hst; [|done]. simpl. intros Hr.
    rewrite (IH _ Hr). eauto using step_cellSize.
Qed.

Lemma track_dom (w : world) (reg : gmap EntityHandle Vec3) (o : op) :
  obeys w reg o = true →
  dom (track (heap w) reg o) = live_step (dom reg) o.
Proof.
  destruct o as [h|h|h oldPos newPos|h pos]; simpl; intros Hob.
  - rewrite dom_insert_L. apply union_comm_L.
  - apply dom_delete_L.
  - destruct (reg !! h) as [p|] eqn:Hh; [|done].
    apply dom_insert_lookup_L. by eexists.
  - done.
Qed.

Lemma registry_dom (tr : list op) (w : world) (reg : gmap EntityHandle Vec3) :
  lawful w reg tr = true →
  dom (registry w reg tr) = foldl live_step (dom reg) tr.
Proof.
  revert w reg. induction tr as [|o tr IH]; intros w reg; simpl; [done|].
  intros [Hob Hl]%andb_true_iff. destruct (step w o) as [w1|]; [|done].
  rewrite (IH _ _ Hl). by rewrite track_dom.
Qed.

(** ** Lemmas: loops over an int32 counter *)

Lemma incr_succ (i : Z) :
  Int32.in_range i → i < Int32.max_int → Int32.incr i = i + 1.
Proof.
  intros Hi Hlt. apply wrap_id. unfold Int32.in_range in *.
  unfold Int32.min_int, Int32.max_int in *. lia.
Qed.

(** A loop whose bound is the largest [int32] never ends. *)
Lemma for32_diverges {A : Type} (fuel : nat) (i : Z)
    (body : Z -> A -> option A) (acc : A) :
  Int32.in_range i → for32 fuel i Int32.max_int body acc = None.
Proof.
  revert i acc. induction fuel as [|fuel IH]; intros i acc Hi; simpl; [done|].
  destruct (Z.leb_spec i Int32.max_int) as [_|Hgt].
  - destruct (body i acc); [|done]. apply IH, wrap_in_range.
  - unfold Int32.in_range in Hi. lia.
Qed.

Lemma for32_Some {A : Type} (fuel : nat) (lo hi : Z)
    (body : Z -> A -> option A) (acc r : A) :
  Int32.in_range lo → Int32.in_range hi →
  for32 fuel lo hi body acc = Some r →
  fold_opt body (seqZ lo (hi - lo + 1)) acc = Some r.
Proof.
  intros Hlo Hhi. destruct (decide (hi = Int32.max_int)) as [->|Hmax].
  { destruct (Z.le_gt_cases lo Int32.max_int) as [_|Hgt].
    - by rewrite for32_diverges.
    - unfold Int32.in_range in Hlo. lia. }
  revert lo acc Hlo. induction fuel as [|fuel IH]; intros lo acc Hlo; simpl;
    [done|].
  destruct (Z.leb_spec lo hi) as [Hle|Hgt].
  - rewrite seqZ_cons by lia. simpl.
    destruct (body lo acc) as [acc'|]; [|done].
    assert (Hin : Int32.incr lo = lo + 1).
    { apply incr_succ; [done|]. unfold Int32.in_range in Hhi. lia. }
    rewrite Hin. intros Hr. apply IH in Hr.
    + replace (Z.succ lo) with (lo + 1) by lia.
      by replace (Z.pred (hi - lo + 1)) with (hi - (lo + 1) + 1) by lia.
    + unfold Int32.in_range in *. lia.
  - intros [= <-]. by rewrite seqZ_nil by lia.
Qed.

Lemma for32_enough {A : Type} (fuel : nat) (lo hi : Z)
    (body : Z -> A -> option A) (acc r : A) :
  Int32.in_range lo → Int32.in_range hi → hi < Int32.max_int →
  (Z.to_nat (hi - lo + 1) < fuel)%nat →
  fold_opt body (seqZ lo (hi - lo + 1)) acc = Some r →
  for32 fuel lo hi body acc = Some r.
Proof.
  intros Hlo Hhi Hmax. revert lo acc Hlo.
  induction fuel as [|fuel IH]; intros lo acc Hlo Hfuel; simpl; [lia|].
  destruct (Z.leb_spec lo hi) as [Hle|Hgt].
  - rewrite seqZ_cons by lia. simpl.
    destruct (body lo acc) as [acc'|]; [|done].
    rewrite incr_succ by (done || lia). intros Hr. apply IH.
    + unfold Int32.in_range in *. lia.
    + lia.
    + replace (lo + 1) with (Z.succ lo) by lia.
      by replace (hi - Z.succ lo + 1) with (Z.pred (hi - lo + 1)) by lia.
  - rewrite seqZ_nil by lia. simpl. by intros [= <-].
Qed.

Lemma fold_opt_appends {B : Type} (body : Z -> list B -> option (list B))
    (F : Z -> list B) (l : list Z) (acc r : list B) :
  (∀ i a a', body i a = Some a' → a' = a ++ F i) →
  fold_opt body l acc = Some r → r = acc ++ (l ≫= F).
Proof.
  intros Hbody. revert acc.
  induction l as [|i l IH]; intros acc; cbn [fold_opt].
  - intros [= <-]. by rewrite app_nil_r.
  - destruct (body i acc) as [acc'|] eqn:Hb; [|done]. intros Hr.
    apply IH in Hr as ->. apply Hbody in Hb as ->.
    by rewrite bind_cons, app_assoc.
Qed.

Lemma fold_opt_total {B : Type} (body : Z -> list B -> option (list B))
    (F : Z -> list B) (l : list Z) (acc : list B) :
  (∀ i a, body i a = Some (a ++ F i)) →
  fold_opt body l acc = Some (acc ++ (l ≫= F)).
Proof.
  intros Hbody. revert acc.
  induction l as [|i l IH]; intros acc; cbn [fold_opt].
  - by rewrite app_nil_r.
  - rewrite Hbody, IH. by rewrite bind_cons, app_assoc.
Qed.

(** ** Lemmas: QueryNearby *)

Lemma scan_cell_eq (hp : Heap) (g : spatialGrid) (box : BBox) (c : GridCell)
    (result : list EntityHandle) :
  scan_cell hp g box c result =
    result ++ filter (fun h => Vec3Within box (hp h) = true) (bucket g c).
Proof.
  unfold scan_cell, bucket. destruct (cells g !! c) as [handles|]; simpl.
  - revert result. induction handles as [|h handles IH]; intros result; simpl.
    + by rewrite app_nil_r.
    + rewrite IH, filter_cons. destruct (Vec3Within box (hp h)).
      * rewrite decide_True by done. by rewrite <- app_assoc.
      * by rewrite decide_False by done.
  - by rewrite app_nil_r.
Qed.

Lemma QueryNearby_Some (fuel : nat) (hp : Heap) (g : spatialGrid) (box : BBox)
    (minCell maxCell : GridCell) (r : list EntityHandle) :
  cellForPos g (Min box) = Some minCell →
  cellForPos g (Max box) = Some maxCell →
  QueryNearby fuel hp g box = Some r →
  r = nearby hp g box minCell maxCell.
Proof.
  intros Hmin Hmax. unfold QueryNearby. rewrite Hmin, Hmax. simpl.
  destruct (cellForPos_in_range _ _ _ Hmin) as [Hx0 Hz0].
  destruct (cellForPos_in_range _ _ _ Hmax) as [Hx1 Hz1].
  intros Hr. apply for32_Some in Hr; [|done..].
  apply (fold_opt_appends _
           (fun x => z ← seqZ (cellZ minCell) (cellZ maxCell - cellZ minCell + 1);
                     filter (fun h => Vec3Within box (hp h) = true)
                            (bucket g (mkGridCell x z)))) in Hr; [done|].
  intros x a a' Ha. apply for32_Some in Ha; [|done..].
  apply (fold_opt_appends _
           (fun z => filter (fun h => Vec3Within box (hp h) = true)
                            (bucket g (mkGridCell x z)))) in Ha; [done|].
  intros z b b' [= <-]. apply scan_cell_eq.
Qed.

Lemma QueryNearby_enough (fuel : nat) (hp : Heap) (g : spatialGrid)
    (box : BBox) (minCell maxCell : GridCell) :
  cellForPos g (Min box) = Some minCell →
  cellForPos g (Max box) = Some maxCell →
  cellX maxCell < Int32.max_int → cellZ maxCell < Int32.max_int →
  enough_fuel minCell maxCell fuel →
  QueryNearby fuel hp g box = Some (nearby hp g box minCell maxCell).
Proof.
  intros Hmin Hmax HX HZ [Hfx Hfz]. unfold QueryNearby.
  rewrite Hmin, Hmax. simpl.
  destruct (cellForPos_in_range _ _ _ Hmin) as [Hx0 Hz0].
  destruct (cellForPos_in_range _ _ _ Hmax) as [Hx1 Hz1].
  apply for32_enough; [done..|].
  rewrite <- (app_nil_l (nearby hp g box minCell maxCell)). unfold nearby.
  apply (fold_opt_total _
           (fun x => z ← seqZ (cellZ minCell) (cellZ maxCell - cellZ minCell + 1);
                     filter (fun h => Vec3Within box (hp h) = true)
                            (bucket g (mkGridCell x z)))).
  intros x a. apply for32_enough; [done..|].
  apply (fold_opt_total _
           (fun z => filter (fun h => Vec3Within box (hp h) = true)
                            (bucket g (mkGridCell x z)))).
  intros z b. by rewrite scan_cell_eq.
Qed.

Lemma elem_of_nearby (hp : Heap) (g : spatialGrid) (box : BBox)
    (minCell maxCell : GridCell) (h : EntityHandle) :
  h ∈ nearby hp g box minCell maxCell ↔
  ∃ c, in_cell_range minCell maxCell c ∧ h ∈ bucket g c ∧
       Vec3Within box (hp h) = true.
Proof.
  unfold nearby, in_cell_range. rewrite list_elem_of_bind. split.
  - intros (x & (z & Hh & Hz)%list_elem_of_bind & Hx).
    apply list_elem_of_filter in Hh as [HP Hb].
    apply elem_of_seqZ in Hx. apply elem_of_seqZ in Hz.
    exists (mkGridCell x z). simpl. split_and!; (done || lia).
  - intros ([x z] & [Hx Hz] & Hb & HP). simpl in *.
    exists x. split; [|apply elem_of_seqZ; lia].
    apply list_elem_of_bind. exists z. split; [|apply elem_of_seqZ; lia].
    by apply list_elem_of_filter.
Qed.

(** ** Lemmas: QueryChunks *)

Lemma elem_of_dedup_first (S : gset EntityHandle) (l : list EntityHandle)
    (h : EntityHandle) :
  h ∈ dedup_first S l ↔ h ∈ l ∧ h ∉ S.
Proof.
  revert S. induction l as [|x l IH]; intros S; simpl.
  - split; [by intros ?%elem_of_nil|by intros [?%elem_of_nil _]].
  - destruct (decide (x ∈ S)) as [Hx|Hx].
    + rewrite IH, elem_of_cons. split; [intros [? ?]; auto|].
      intros [[->|?] ?]; done.
    + rewrite !elem_of_cons, IH. split.
      * intros [->|[? Hn]]; [auto|]. split; [auto|]. set_solver.
      * intros [[->|?] ?]; [auto|]. destruct (decide (h = x)) as [->|]; [auto|].
        right. split; [done|]. set_solver.
Qed.

Lemma NoDup_dedup_first (S : gset EntityHandle) (l : list EntityHandle) :
  NoDup (dedup_first S l).
Proof.
  revert S. induction l as [|x l IH]; intros S; simpl; [constructor|].
  destruct (decide (x ∈ S)); [done|]. constructor; [|done].
  rewrite elem_of_dedup_first. set_solver.
Qed.

Lemma dedup_first_app (S : gset EntityHandle) (l1 l2 : list EntityHandle) :
  dedup_first S (l1 ++ l2) =
    dedup_first S l1 ++ dedup_first (S ∪ list_to_set l1) l2.
Proof.
  revert S. induction l1 as [|x l1 IH]; intros S; simpl.
  - by rewrite (right_id_L ∅ (∪)).
  - destruct (decide (x ∈ S)) as [Hx|Hx]; rewrite IH; simpl; f_equal.
    + f_equal. set_solver.
    + f_equal. f_equal. set_solver.
Qed.

Lemma index_of_cons_ne (h x : EntityHandle) (l : list EntityHandle) (i : nat) :
  x ≠ h → index_of h l = Some i → index_of h (x :: l) = Some (S i).
Proof. intros Hne Hi. simpl. rewrite decide_False by done. by rewrite Hi. Qed.

(** Two handles of the deduplicated list stand in the order of their first
    occurrences. *)
Lemma dedup_first_order (S : gset EntityHandle) (l : list EntityHandle)
    (r1 r2 r3 : list EntityHandle) (x y : EntityHandle) :
  dedup_first S l = r1 ++ x :: r2 ++ y :: r3 →
  ∃ i j, index_of x l = Some i ∧ index_of y l = Some j ∧ (i < j)%nat.
Proof.
  revert S r1. induction l as [|a l IH]; intros S r1; simpl.
  - by destruct r1.
  - destruct (decide (a ∈ S)) as [Ha|Ha].
    + intros Hd. destruct (IH _ _ Hd) as (i & j & Hi & Hj & Hij).
      assert (Hx : x ∈ dedup_first S l) by (rewrite Hd; set_solver).
      assert (Hy : y ∈ dedup_first S l) by (rewrite Hd; set_solver).
      apply elem_of_dedup_first in Hx as [_ Hx].
      apply elem_of_dedup_first in Hy as [_ Hy].
      exists (Datatypes.S i), (Datatypes.S j).
      rewrite !decide_False by (intros ->; done). rewrite Hi, Hj.
      split_and!; [done..|lia].
    + destruct r1 as [|b r1]; simpl; intros [= -> Hd].
      * assert (Hy : y ∈ dedup_first ({[x]} ∪ S) l) by (rewrite Hd; set_solver).
        apply elem_of_dedup_first in Hy as [Hy Hyx].
        destruct (index_of_is_Some _ _ Hy) as [j Hj].
        exists O, (Datatypes.S j). rewrite decide_True by done.
        rewrite decide_False by set_solver. rewrite Hj.
        split_and!; [done..|lia].
      * destruct (IH _ _ Hd) as (i & j & Hi & Hj & Hij).
        assert (Hx : x ∈ dedup_first ({[b]} ∪ S) l) by (rewrite Hd; set_solver).
        assert (Hy : y ∈ dedup_first ({[b]} ∪ S) l) by (rewrite Hd; set_solver).
        apply elem_of_dedup_first in Hx as [_ Hx].
        apply elem_of_dedup_first in Hy as [_ Hy].
        exists (Datatypes.S i), (Datatypes.S j).
        rewrite !decide_False by set_solver. rewrite Hi, Hj.
        split_and!; [done..|lia].
Qed.

Lemma seen_is_empty : seen_is ∅ ∅.
Proof. intros h. rewrite lookup_empty. simpl. set_solver. Qed.

Lemma scan_seen_spec (handles : list EntityHandle)
    (seen : gmap EntityHandle bool) (S : gset EntityHandle)
    (result : list EntityHandle) :
  seen_is seen S →
  ∃ seen', scan_seen handles (seen, result) =
             (seen', result ++ dedup_first S handles) ∧
           seen_is seen' (S ∪ list_to_set handles).
Proof.
  unfold scan_seen. revert seen S result.
  induction handles as [|h handles IH]; intros seen S result Hs; simpl.
  - exists seen. rewrite app_nil_r, (right_id_L ∅ (∪)). done.
  - destruct (default false (seen !! h)) eqn:Hh.
    + apply Hs in Hh. rewrite decide_True by done.
      destruct (IH seen S result Hs) as (seen' & -> & Hs').
      exists seen'. split; [done|].
      replace (S ∪ ({[h]} ∪ list_to_set handles))
        with (S ∪ list_to_set handles) by set_solver. done.
    + assert (Hn : h ∉ S) by (intros ?%Hs; congruence).
      rewrite decide_False by done.
      destruct (IH (<[h := true]> seen) ({[h]} ∪ S) (result ++ [h]))
        as (seen' & -> & Hs').
      { intros x. destruct (decide (h = x)) as [<-|Hne].
        - rewrite lookup_insert_eq. simpl. set_solver.
        - rewrite lookup_insert_ne by done. rewrite (Hs x). set_solver. }
      exists seen'. split; [by rewrite <- app_assoc|].
      replace (S ∪ ({[h]} ∪ list_to_set handles))
        with ({[h]} ∪ S ∪ list_to_set handles) by set_solver. done.
Qed.

Lemma QueryChunks_fold (g : spatialGrid) (chunks : list ChunkPos)
    (seen : gmap EntityHandle bool) (S : gset EntityHandle)
    (result : list EntityHandle) :
  seen_is seen S →
  snd (foldl (fun st cp =>
                match cells g !! cellForChunkPos g cp with
                | None => st
                | Some handles => scan_seen handles st
                end)
             (seen, result) chunks) =
    result ++ dedup_first S (residents g chunks).
Proof.
  revert seen S result.
  induction chunks as [|cp chunks IH]; intros seen S result Hs.
  - simpl. by rewrite app_nil_r.
  - unfold residents. rewrite bind_cons. fold (residents g chunks).
    rewrite dedup_first_app. cbn [foldl]. unfold bucket at 1 2.
    destruct (cells g !! cellForChunkPos g cp) as [handles|]; simpl.
    + destruct (scan_seen_spec handles seen S result Hs) as (seen' & -> & Hs').
      rewrite (IH _ _ _ Hs'). by rewrite <- app_assoc.
    + rewrite (right_id_L ∅ (∪)). by apply IH.
Qed.

Lemma QueryChunks_eq (g : spatialGrid) (chunks : list ChunkPos) :
  QueryChunks g chunks = dedup_first ∅ (residents g chunks).
Proof.
  unfold QueryChunks. by rewrite (QueryChunks_fold g chunks ∅ ∅ []
                                    seen_is_empty).
Qed.

(** ** Lemmas: the integer part of a float64 grows with the value *)

Lemma digits2_pos_bounds (m : positive) :
  2 ^ (Zpos (digits2_pos m) - 1) <= Zpos m < 2 ^ Zpos (digits2_pos m).
Proof.
  induction m as [m IH|m IH|]; simpl digits2_pos.
  - rewrite Pos2Z.inj_succ.
    replace (Z.succ (Z.pos (digits2_pos m)) - 1)
      with (Z.succ (Z.pos (digits2_pos m) - 1)) by lia.
    rewrite !Z.pow_succ_r by lia. lia.
  - rewrite Pos2Z.inj_succ.
    replace (Z.succ (Z.pos (digits2_pos m)) - 1)
      with (Z.succ (Z.pos (digits2_pos m) - 1)) by lia.
    rewrite !Z.pow_succ_r by lia. lia.
  - simpl. lia.
Qed.

Lemma bounded_mantissa (m : positive) (e : Z) :
  bounded prec emax m e = true →
  Zpos m < 2 ^ 53 ∧ -1074 <= e ∧ (-1074 < e → 2 ^ 52 <= Zpos m).
Proof.
  unfold bounded, canonical_mantissa, fexp, emin, prec, emax.
  intros [Hc _]%andb_true_iff. apply Z.eqb_eq in Hc.
  pose proof (digits2_pos_bounds m) as [Hlo Hhi].
  split_and!.
  - eapply Z.lt_le_trans; [exact Hhi|]. apply Z.pow_le_mono_r; lia.
  - lia.
  - intros He. replace (Z.pos (digits2_pos m)) with 53 in Hlo by lia.
    exact Hlo.
Qed.

Lemma shiftl_mono (a b e : Z) : a <= b → Z.shiftl a e <= Z.shiftl b e.
Proof.
  intros Hab. destruct (Z.le_gt_cases 0 e) as [He|He].
  - rewrite !Z.shiftl_mul_pow2 by done.
    apply Z.mul_le_mono_nonneg_r; [|done]. apply Z.pow_nonneg. lia.
  - rewrite !Z.shiftl_div_pow2 by lia.
    apply Z.div_le_mono; [|done]. apply Z.pow_pos_nonneg; lia.
Qed.

Lemma magnitude_mono (m1 m2 : positive) (e1 e2 : Z) :
  bounded prec emax m1 e1 = true → bounded prec emax m2 e2 = true →
  e1 < e2 ∨ (e1 = e2 ∧ Zpos m1 <= Zpos m2) →
  Z.shiftl (Zpos m1) e1 <= Z.shiftl (Zpos m2) e2.
Proof.
  intros (H1 & He1 & _)%bounded_mantissa (_ & _ & H2)%bounded_mantissa
         [Hlt|[-> Hle]]; [|by apply shiftl_mono].
  replace e2 with ((e2 - e1) + e1) by lia.
  rewrite <- Z.shiftl_shiftl by lia. apply shiftl_mono.
  rewrite Z.shiftl_mul_pow2 by lia.
  assert (2 ^ 1 <= 2 ^ (e2 - e1)) by (apply Z.pow_le_mono_r; lia).
  specialize (H2 ltac:(lia)). nia.
Qed.

Lemma shiftl_pos_nonneg (m : positive) (e : Z) : 0 <= Z.shiftl (Zpos m) e.
Proof. apply Z.shiftl_nonneg. lia. Qed.

Lemma lt_trunc_mono (a b : float64) (za zb : Z) :
  valid a = true → valid b = true → lt a b = true →
  trunc a = Some za → trunc b = Some zb → za <= zb.
Proof.
  unfold valid, lt, SFltb.
  destruct a as [sa|sa| |sa ma ea], b as [sb|sb| |sb mb eb]; simpl;
    try done; intros Va Vb Hlt [= <-] [= <-].
  - destruct sb; [done|]. apply shiftl_pos_nonneg.
  - destruct sa; [|done]. simpl. pose proof (shiftl_pos_nonneg ma ea). lia.
  - pose proof (shiftl_pos_nonneg ma ea). pose proof (shiftl_pos_nonneg mb eb).
    destruct sa, sb; simpl; try done; try lia.
    + assert (Z.shiftl (Zpos mb) eb <= Z.shiftl (Zpos ma) ea); [|lia].
      apply magnitude_mono; [done..|].
      destruct (Z.compare_spec ea eb) as [->|?|?]; [|done|by left].
      right. split; [done|]. fold (Pos.compare ma mb) in Hlt.
      destruct (Pos.compare_spec ma mb); simpl in Hlt; try done. lia.
    + apply magnitude_mono; [done..|].
      destruct (Z.compare_spec ea eb) as [->|?|?]; [|by left|done].
      right. split; [done|]. fold (Pos.compare ma mb) in Hlt.
      destruct (Pos.compare_spec ma mb); simpl in Hlt; try done. lia.
Qed.

Lemma lt_between_finite (a p b : float64) :
  lt a p = true → lt p b = true → is_Some (trunc p).
Proof.
  unfold lt, SFltb.
  destruct p as [sp|sp| |sp mp ep]; simpl; [by eexists| | |by eexists].
  - destruct a as [sa|sa| |sa ma ea], b as [sb|sb| |sb mb eb], sp;
      simpl; try done; try (by destruct sa); try (by destruct sb).
  - by destruct a.
Qed.

(** A value strictly between two values that convert into [int32] converts
    to an [int32] between theirs. *)
Lemma int32_of_float64_between (a p b : float64) :
  valid a = true → valid p = true → valid b = true →
  fits_int32 a = true → fits_int32 b = true →
  lt a p = true → lt p b = true →
  int32_of_float64 a <= int32_of_float64 p <= int32_of_float64 b ∧
  fits_int32 p = true.
Proof.
  intros Va Vp Vb Fa Fb Hap Hpb. unfold fits_int32 in *.
  destruct (lt_between_finite a p b Hap Hpb) as [zp Hp].
  destruct (trunc a) as [za|] eqn:Ha; [|done].
  destruct (trunc b) as [zb|] eqn:Hb; [|done].
  apply in_rangeb_spec in Fa, Fb.
  pose proof (lt_trunc_mono a p za zp Va Vp Hap Ha Hp).
  pose proof (lt_trunc_mono p b zp zb Vp Vb Hpb Hp Hb).
  assert (Fp : Int32.in_range zp) by (unfold Int32.in_range in *; lia).
  rewrite Hp, (int32_of_float64_fits a za), (int32_of_float64_fits p zp),
    (int32_of_float64_fits b zb) by done.
  split; [lia|]. by apply in_rangeb_spec.
Qed.

(** ** Lemmas: one removal, one update *)

Lemma remove_first_split (h : EntityHandle) (l1 l2 : list EntityHandle) :
  h ∉ l1 → remove_first h (l1 ++ h :: l2) = l1 ++ l2.
Proof.
  induction l1 as [|x l1 IH]; simpl; intros Hn.
  - by rewrite decide_True.
  - apply not_elem_of_cons in Hn as [Hne Hn].
    rewrite decide_False by done. by rewrite IH.
Qed.

Lemma remove_first_absent (h : EntityHandle) (l : list EntityHandle) :
  h ∉ l → remove_first h l = l.
Proof.
  induction l as [|x l IH]; simpl; [done|]. intros [Hne Hn]%not_elem_of_cons.
  rewrite decide_False by done. by rewrite IH.
Qed.

Lemma bucket_remove_from (g : spatialGrid) (c c' : GridCell)
    (h : EntityHandle) :
  bucket (remove_from g c h) c' =
    if decide (c = c') then remove_first h (bucket g c) else bucket g c'.
Proof.
  destruct (decide (c = c')) as [<-|Hne]; [|by apply bucket_remove_from_ne].
  destruct (decide (h ∈ bucket g c)) as [Hin|Hn].
  - destruct (bucket_remove_from_present g c h Hin) as (l1 & l2 & Hb & Hl1 & ->).
    rewrite bucket_with_cells_insert, decide_True by done.
    by rewrite Hb, remove_first_split.
  - by rewrite bucket_remove_from_absent, remove_first_absent.
Qed.

(** ** Lemmas: the cells a box covers *)

Lemma cellForPos_positive (g : spatialGrid) (pos : Vec3) :
  0 < cellSize g →
  cellForPos g pos =
    Some (mkGridCell (int32_of_float64 (vec0 pos) ÷ cellSize g)
                     (int32_of_float64 (vec2 pos) ÷ cellSize g)).
Proof.
  intros Hcs. unfold cellForPos.
  by rewrite !div_positive by (done || apply int32_of_float64_in_range).
Qed.

Lemma axis_between (a p b : float64) :
  axis_in_range a p b = true → lt a p = true → lt p b = true →
  int32_of_float64 a <= int32_of_float64 p <= int32_of_float64 b.
Proof.
  unfold axis_in_range. rewrite !andb_true_iff.
  intros [[[[Va Vp] Vb] Fa] Fb] Hap Hpb.
  by apply int32_of_float64_between.
Qed.

Lemma inside_in_cell_range (g : spatialGrid) (box : BBox) (p : Vec3)
    (minCell maxCell c : GridCell) :
  0 < cellSize g → box_in_range box p = true →
  strictly_inside box p = true →
  cellForPos g (Min box) = Some minCell →
  cellForPos g (Max box) = Some maxCell →
  cellForPos g p = Some c →
  in_cell_range minCell maxCell c.
Proof.
  intros Hcs [Rx Rz]%andb_true_iff Hin.
  unfold strictly_inside in Hin. rewrite !andb_true_iff in Hin.
  destruct Hin as [[[[[Hx0 Hx1] _] _] Hz0] Hz1].
  rewrite !cellForPos_positive by done. intros [= <-] [= <-] [= <-].
  destruct (axis_between _ _ _ Rx Hx0 Hx1).
  destruct (axis_between _ _ _ Rz Hz0 Hz1).
  unfold in_cell_range. simpl. split_and!; by apply Z.quot_le_mono.
Qed.

Lemma QueryNearby_diverges (fuel : nat) (hp : Heap) (g : spatialGrid)
    (box : BBox) (minCell maxCell : GridCell) :
  cellForPos g (Min box) = Some minCell →
  cellForPos g (Max box) = Some maxCell →
  cellX maxCell = Int32.max_int →
  QueryNearby fuel hp g box = None.
Proof.
  intros Hmin Hmax HX. unfold QueryNearby. rewrite Hmin, Hmax. simpl.
  rewrite HX. apply for32_diverges. by apply (cellForPos_in_range g (Min box)).
Qed.

(** ** The properties of the grid *)

(** C1 (amended). For every history of Add, Remove and Update calls (with
    writes to handle positions in between) that obeys the caller's contract,
    applied to a freshly constructed grid, the calls all return and Count
    afterwards is the number of handles that have been added and not
    removed since. *)
Theorem Count_counts_live_handles (cs : Z) (hp : Heap) (tr : list op) :
  lawful (mkWorld hp (newSpatialGrid cs)) ∅ tr = true →
  ∃ w, run (mkWorld hp (newSpatialGrid cs)) tr = Some w ∧
       Count (grid w) = Z.of_nat (size (live_handles tr)).
Proof.
  intros Hl. destruct (lawful_runs _ _ _ Hl) as [w Hr]. exists w.
  split; [done|].
  pose proof (filed_run tr (mkWorld hp (newSpatialGrid cs)) w ∅
                (filed_init cs) Hl Hr) as F.
  rewrite (filed_count _ _ F). f_equal.
  rewrite <- size_dom, (registry_dom _ _ _ Hl). by rewrite dom_empty_L.
Qed.

(** C2 (amended). In every state reached under the caller's contract, a
    handle present in the index was registered by an Add or Update, appears
    once, and occupies exactly one cell: with [p] the position supplied at
    the most recent Add or Update of the handle, the cell
    [(int32(p.x) / cellSize, int32(p.z) / cellSize)], both the conversion
    and the division truncating toward zero. *)
Theorem handle_occupies_one_cell (cs : Z) (hp : Heap) (tr : list op)
    (w : world) (h : EntityHandle) (c : GridCell) :
  lawful (mkWorld hp (newSpatialGrid cs)) ∅ tr = true →
  run (mkWorld hp (newSpatialGrid cs)) tr = Some w →
  h ∈ bucket (grid w) c →
  ∃ p, registry (mkWorld hp (newSpatialGrid cs)) ∅ tr !! h = Some p ∧
       c = mkGridCell (Int32.wrap (int32_of_float64 (vec0 p) ÷ cs))
                      (Int32.wrap (int32_of_float64 (vec2 p) ÷ cs)) ∧
       occupies_only (grid w) h c ∧
       NoDup (bucket (grid w) c).
Proof.
  intros Hl Hr Hin.
  pose proof (filed_run tr (mkWorld hp (newSpatialGrid cs)) w ∅
                (filed_init cs) Hl Hr) as F.
  pose proof (run_cellSize _ _ _ Hr) as Hcs. simpl in Hcs.
  pose proof Hin as (p & Hp & Hc)%(filed_where _ _ F).
  exists p. split_and!; [done| | |apply (filed_once _ _ F)].
  - destruct (decide (cellSize (grid w) = 0)) as [H0|H0].
    { by rewrite cellForPos_zero in Hc. }
    rewrite cellForPos_eq in Hc by done. rewrite Hcs in Hc. congruence.
  - intros c'. split.
    + intros (p' & Hp' & Hc')%(filed_where _ _ F). congruence.
    + by intros ->.
Qed.

(** C4. On a grid whose cell size is not zero, Update returns; it returns
    true exactly when the cells of oldPos and newPos differ; when it returns
    false the grid is the grid it was given; when it returns true the bucket
    of oldPos's cell has lost the first occurrence of the handle, the
    bucket of newPos's cell has the handle appended, and every other bucket
    is as it was. *)
Theorem Update_moves_between_cells (g : spatialGrid) (handle : EntityHandle)
    (oldPos newPos : Vec3) :
  cellSize g ≠ 0 →
  ∃ g' moved oldCell newCell,
    Update g handle oldPos newPos = Some (g', moved) ∧
    cellForPos g oldPos = Some oldCell ∧
    cellForPos g newPos = Some newCell ∧
    (moved = true ↔ oldCell ≠ newCell) ∧
    (moved = false → g' = g) ∧
    (moved = true →
       bucket g' oldCell = remove_first handle (bucket g oldCell) ∧
       bucket g' newCell = bucket g newCell ++ [handle] ∧
       ∀ c, c ≠ oldCell → c ≠ newCell → bucket g' c = bucket g c).
Proof.
  intros Hcs. unfold Update. rewrite !cellForPos_eq by done. simpl.
  set (oldCell := mkGridCell _ _). set (newCell := mkGridCell _ _).
  destruct (decide (oldCell = newCell)) as [He|Hne].
  - exists g, false, oldCell, newCell. by split_and!.
  - exists (append_to (remove_from g oldCell handle) newCell handle), true,
      oldCell, newCell.
    split_and!; [done..|]. intros _. split_and!.
    + rewrite bucket_append_to, decide_False by done.
      by rewrite bucket_remove_from, decide_True.
    + rewrite bucket_append_to, decide_True by done.
      by rewrite bucket_remove_from, decide_False.
    + intros c Ho Hn. rewrite bucket_append_to, decide_False by done.
      by rewrite bucket_remove_from, decide_False.
Qed.

(** C6. On a grid whose cell size is not zero, Remove returns. If the
    handle is absent from the bucket of the cell of its current position,
    the grid is unchanged; if it is present, the bucket loses exactly the
    first occurrence of the handle, the other handles keep their order, and
    nothing else in the map changes. *)
Theorem Remove_first_occurrence_or_nothing (hp : Heap) (g : spatialGrid)
    (handle : EntityHandle) :
  cellSize g ≠ 0 →
  ∃ g' cell,
    Remove hp g handle = Some g' ∧
    cellForPos g (hp handle) = Some cell ∧
    (handle ∉ bucket g cell → g' = g) ∧
    (handle ∈ bucket g cell →
       ∃ before after,
         bucket g cell = before ++ handle :: after ∧
         (handle ∉ before) ∧
         cells g' = <[cell := before ++ after]> (cells g) ∧
         cellSize g' = cellSize g).
Proof.
  intros Hcs. unfold Remove. rewrite cellForPos_eq by done. simpl.
  set (cell := mkGridCell _ _). exists (remove_from g cell handle), cell.
  split_and!; try done.
  - apply bucket_remove_from_absent.
  - intros Hin.
    destruct (bucket_remove_from_present g cell handle Hin)
      as (l1 & l2 & Hb & Hl1 & ->).
    by exists l1, l2.
Qed.

(** C7. For every list of chunk positions, duplicates included,
    QueryChunks returns the handles resident in the requested chunks, each
    exactly once, in the order in which the scan of the chunks in list order
    first meets them. *)
Theorem QueryChunks_dedups_in_first_seen_order (g : spatialGrid)
    (chunks : list ChunkPos) :
  QueryChunks g chunks = dedup_first ∅ (residents g chunks) ∧
  NoDup (QueryChunks g chunks) ∧
  (∀ h, h ∈ QueryChunks g chunks ↔ h ∈ residents g chunks) ∧
  (∀ r1 x r2 y r3,
     QueryChunks g chunks = r1 ++ x :: r2 ++ y :: r3 →
     ∃ i j, index_of x (residents g chunks) = Some i ∧
            index_of y (residents g chunks) = Some j ∧ (i < j)%nat).
Proof.
  rewrite QueryChunks_eq. split_and!.
  - done.
  - apply NoDup_dedup_first.
  - intros h. rewrite elem_of_dedup_first. set_solver.
  - intros r1 x r2 y r3. apply dedup_first_order.
Qed.

(** C3 (amended). In a state reached under the caller's contract, let [h]
    be a handle added (or last updated) at position [p] and not moved or
    removed since. (1) If the cell size is positive, the box strictly
    contains [p], the X and Z coordinates of the box corners convert into
    int32, the cell of the upper corner is below the largest int32 on both
    axes, and the containment test accepts the points strictly inside a
    box, then QueryNearby returns (with the fuel for its two loops) and
    its result includes [h]. (2) If the cell of [p] is outside the range of
    cells that the box covers, no result of QueryNearby includes [h]. *)
Theorem QueryNearby_round_trip (cs : Z) (hp : Heap) (tr : list op) (w : world)
    (h : EntityHandle) (p : Vec3) (box : BBox) (minCell maxCell c : GridCell) :
  lawful (mkWorld hp (newSpatialGrid cs)) ∅ tr = true →
  run (mkWorld hp (newSpatialGrid cs)) tr = Some w →
  registry (mkWorld hp (newSpatialGrid cs)) ∅ tr !! h = Some p →
  heap w h = p →
  cellForPos (grid w) (Min box) = Some minCell →
  cellForPos (grid w) (Max box) = Some maxCell →
  cellForPos (grid w) p = Some c →
  (0 < cs → strictly_inside box p = true → box_in_range box p = true →
   cellX maxCell < Int32.max_int → cellZ maxCell < Int32.max_int →
   (∀ b q, strictly_inside b q = true → Vec3Within b q = true) →
   ∀ fuel, enough_fuel minCell maxCell fuel →
     ∃ r, QueryNearby fuel (heap w) (grid w) box = Some r ∧ h ∈ r) ∧
  (¬ in_cell_range minCell maxCell c →
   ∀ fuel r, QueryNearby fuel (heap w) (grid w) box = Some r → h ∉ r).
Proof.
  intros Hl Hr Hp Hh Hmin Hmax Hc.
  pose proof (filed_run tr (mkWorld hp (newSpatialGrid cs)) w ∅
                (filed_init cs) Hl Hr) as F.
  pose proof (run_cellSize _ _ _ Hr) as Hcs. simpl in Hcs.
  split.
  - intros Hpos Hin Hrange HX HZ Hwithin fuel Hfuel.
    exists (nearby (heap w) (grid w) box minCell maxCell).
    split; [by apply QueryNearby_enough|].
    apply elem_of_nearby. exists c. split_and!.
    + apply (inside_in_cell_range (grid w) box p); [lia|done..].
    + apply (filed_where _ _ F). eauto.
    + rewrite Hh. by apply Hwithin.
  - intros Hout fuel r Hq.
    rewrite (QueryNearby_Some _ _ _ _ _ _ _ Hmin Hmax Hq).
    intros (c' & Hc' & Hb & _)%elem_of_nearby.
    apply (filed_where _ _ F) in Hb as (p' & Hp' & Hcp').
    apply Hout. congruence.
Qed.

(** C5 (amended). QueryChunks never returns a handle twice, on any grid
    state. QueryNearby never returns a handle twice on a state reached
    under the caller's contract, where every handle is filed once. *)
Theorem query_results_have_no_duplicates :
  (∀ g chunks, NoDup (QueryChunks g chunks)) ∧
  (∀ cs hp tr w fuel box r,
     lawful (mkWorld hp (newSpatialGrid cs)) ∅ tr = true →
     run (mkWorld hp (newSpatialGrid cs)) tr = Some w →
     QueryNearby fuel (heap w) (grid w) box = Some r →
     NoDup r).
Proof.
  split.
  - intros g chunks. rewrite QueryChunks_eq. apply NoDup_dedup_first.
  - intros cs hp tr w fuel box r Hl Hr Hq.
    pose proof (filed_run tr (mkWorld hp (newSpatialGrid cs)) w ∅
                  (filed_init cs) Hl Hr) as F.
    unfold QueryNearby in Hq.
    destruct (cellForPos (grid w) (Min box)) as [minCell|] eqn:Hmin; [|done].
    destruct (cellForPos (grid w) (Max box)) as [maxCell|] eqn:Hmax; [|done].
    assert (Hq' : QueryNearby fuel (heap w) (grid w) box = Some r).
    { unfold QueryNearby. by rewrite Hmin, Hmax. }
    rewrite (QueryNearby_Some _ _ _ _ _ _ _ Hmin Hmax Hq'). unfold nearby.
    assert (Hcell : ∀ x z x' z' y,
               y ∈ bucket (grid w) (mkGridCell x z) →
               y ∈ bucket (grid w) (mkGridCell x' z') → x = x' ∧ z = z').
    { intros x z x' z' y (p1 & Hp1 & Hc1)%(filed_where _ _ F)
             (p2 & Hp2 & Hc2)%(filed_where _ _ F).
      assert (mkGridCell x z = mkGridCell x' z') as [= -> ->] by congruence.
      done. }
    apply NoDup_bind; [| |apply NoDup_seqZ].
    + intros x x' y _ _ (z & [_ Hy]%list_elem_of_filter & _)%list_elem_of_bind
             (z' & [_ Hy']%list_elem_of_filter & _)%list_elem_of_bind.
      by destruct (Hcell _ _ _ _ _ Hy Hy').
    + intros x _. apply NoDup_bind; [| |apply NoDup_seqZ].
      * intros z z' y _ _ [_ Hy]%list_elem_of_filter
               [_ Hy']%list_elem_of_filter.
        by destruct (Hcell _ _ _ _ _ Hy Hy').
      * intros z _. apply NoDup_filter, (filed_once _ _ F).
Qed.

(** C9. Whatever the cell size, cellForChunkPos returns the cell
    [(c[0], c[1])], and QueryChunks of the one chunk [c] returns the
    contents of the bucket keyed [(c[0], c[1])] without repetitions. With
    [L] the edge length of a chunk: if the cell of every block coordinate
    from 0 to the largest int32 is its chunk coordinate, then the cell size
    is [L]. *)
Theorem chunk_coordinates_are_cell_coordinates (g : spatialGrid)
    (c : ChunkPos) :
  (∀ cs, cellForChunkPos (mkGrid (cells g) cs) c = mkGridCell c.1 c.2) ∧
  QueryChunks g [c] = dedup_first ∅ (bucket g (mkGridCell c.1 c.2)) ∧
  (∀ L, 0 < L <= Int32.max_int →
        (∀ x, 0 <= x <= Int32.max_int →
              Int32.div x (cellSize g) = Some (chunk_coord L x)) →
        cellSize g = L).
Proof.
  split_and!.
  - done.
  - rewrite QueryChunks_eq. unfold residents, cellForChunkPos.
    by rewrite bind_singleton.
  - intros L HL Hall. unfold chunk_coord in Hall.
    pose proof (Hall L ltac:(lia)) as H1.
    pose proof (Hall (L - 1) ltac:(lia)) as H0.
    unfold Int32.div in *.
    destruct (Z.eqb_spec (cellSize g) 0) as [|Hcs]; [done|].
    injection H1 as H1. injection H0 as H0.
    rewrite Z.div_same in H1 by lia.
    rewrite Z.div_small in H0 by lia.
    assert (HquotL : Int32.in_range (L ÷ cellSize g)).
    { unfold Int32.in_range, Int32.min_int, Int32.max_int in *.
      pose proof (quot_bound L (cellSize g) ltac:(lia) Hcs). lia. }
    assert (HquotL1 : Int32.in_range ((L - 1) ÷ cellSize g)).
    { unfold Int32.in_range, Int32.min_int, Int32.max_int in *.
      pose proof (quot_bound (L - 1) (cellSize g) ltac:(lia) Hcs). lia. }
    rewrite wrap_id in H1, H0 by done.
    destruct (Z.lt_trichotomy (cellSize g) 0) as [Hneg|[?|Hpos]]; [|done|].
    + pose proof (Z.quot_opp_r L (cellSize g) Hcs) as Ho.
      pose proof (Z.quot_pos L (- cellSize g) ltac:(lia) ltac:(lia)). lia.
    + destruct (Z.lt_trichotomy (cellSize g) L) as [Hlt|[?|Hgt]]; [|done|].
      * pose proof (Z.quot_le_lower_bound (L - 1) (cellSize g) 1
                      Hpos ltac:(lia)). lia.
      * rewrite Z.quot_small in H1 by lia. lia.
Qed.

(** ** Further properties of the operations *)

Lemma residents_empty (g : spatialGrid) (chunks : list ChunkPos) :
  (∀ c, bucket g c = []) → residents g chunks = [].
Proof.
  intros Hb. unfold residents. induction chunks as [|cp chunks IH]; [done|].
  by rewrite bind_cons, Hb, IH.
Qed.

Lemma nearby_empty (hp : Heap) (g : spatialGrid) (box : BBox)
    (minCell maxCell : GridCell) :
  (∀ c, bucket g c = []) → nearby hp g box minCell maxCell = [].
Proof.
  intros Hb. apply elem_of_nil_inv. intros h (c & _ & Hin & _)%elem_of_nearby.
  rewrite Hb in Hin. by apply elem_of_nil in Hin.
Qed.

(** X1. Clear leaves the grid of a fresh construction with the same cell size:
    Count is zero, every bucket is empty, and no query returns a handle. *)
Theorem Clear_empties_the_grid (hp : Heap) (g : spatialGrid) :
  Clear g = newSpatialGrid (cellSize g) ∧
  Count (Clear g) = 0 ∧
  (∀ c, bucket (Clear g) c = []) ∧
  (∀ chunks, QueryChunks (Clear g) chunks = []) ∧
  (∀ fuel box r, QueryNearby fuel hp (Clear g) box = Some r → r = []).
Proof.
  assert (Hb : ∀ c, bucket (Clear g) c = []).
  { intros c. unfold bucket, Clear. simpl. by rewrite lookup_empty. }
  split_and!; [done| |done| |].
  - unfold Count, Clear. simpl. apply map_fold_empty.
  - intros chunks. by rewrite QueryChunks_eq, residents_empty.
  - intros fuel box r Hq. pose proof Hq as Hq'. unfold QueryNearby in Hq'.
    destruct (cellForPos (Clear g) (Min box)) as [minCell|] eqn:Hmin; [|done].
    destruct (cellForPos (Clear g) (Max box)) as [maxCell|] eqn:Hmax; [|done].
    rewrite (QueryNearby_Some _ _ _ _ _ _ _ Hmin Hmax Hq).
    by apply nearby_empty.
Qed.

(** X2. On a grid whose cell size is not zero, Add returns, and appends the
    handle to the bucket of the cell of its current position whether or not
    the handle is already there; the other buckets are unchanged and Count
    grows by one. *)
Theorem Add_appends_unconditionally (hp : Heap) (g : spatialGrid)
    (handle : EntityHandle) :
  cellSize g ≠ 0 →
  ∃ g' cell,
    Add hp g handle = Some g' ∧
    cellForPos g (hp handle) = Some cell ∧
    bucket g' cell = bucket g cell ++ [handle] ∧
    (∀ c, c ≠ cell → bucket g' c = bucket g c) ∧
    Count g' = Count g + 1 ∧
    cellSize g' = cellSize g.
Proof.
  intros Hcs. unfold Add. rewrite cellForPos_eq by done. simpl.
  set (cell := mkGridCell _ _). exists (append_to g cell handle), cell.
  split_and!; try done.
  - by rewrite bucket_append_to, decide_True.
  - intros c Hc. by rewrite bucket_append_to, decide_False.
  - apply Count_append_to.
Qed.

(** X3. Add followed by Remove of the same handle, its position unchanged,
    restores Count; every other bucket is untouched, the bucket of the
    handle's cell loses the first occurrence of the handle (so it is the
    old bucket when the handle was not in it), and the key of the cell
    stays in the map. *)
Theorem Add_then_Remove_restores (hp : Heap) (g : spatialGrid)
    (handle : EntityHandle) :
  cellSize g ≠ 0 →
  ∃ g1 g2 cell,
    Add hp g handle = Some g1 ∧
    Remove hp g1 handle = Some g2 ∧
    cellForPos g (hp handle) = Some cell ∧
    Count g2 = Count g ∧
    (∀ c, c ≠ cell → bucket g2 c = bucket g c) ∧
    bucket g2 cell = remove_first handle (bucket g cell ++ [handle]) ∧
    (handle ∉ bucket g cell → bucket g2 cell = bucket g cell) ∧
    is_Some (cells g2 !! cell).
Proof.
  intros Hcs. unfold Add, Remove. rewrite cellForPos_eq by done. simpl.
  set (cell := mkGridCell _ _).
  exists (append_to g cell handle),
    (remove_from (append_to g cell handle) cell handle), cell.
  assert (Hin : handle ∈ bucket (append_to g cell handle) cell).
  { rewrite bucket_append_to, decide_True by done.
    apply elem_of_app. right. apply list_elem_of_here. }
  split_and!; try done.
  - rewrite (cellForPos_cellSize g (append_to g cell handle)) by done.
    by rewrite cellForPos_eq.
  - rewrite Count_remove_from_present by done. rewrite Count_append_to. lia.
  - intros c Hc. rewrite bucket_remove_from, decide_False by done.
    by rewrite bucket_append_to, decide_False.
  - rewrite bucket_remove_from, decide_True by done.
    by rewrite bucket_append_to, decide_True.
  - intros Hn. rewrite bucket_remove_from, decide_True by done.
    rewrite bucket_append_to, decide_True by done.
    rewrite remove_first_split by done. apply app_nil_r.
  - destruct (bucket_remove_from_present _ _ _ Hin) as (l1 & l2 & _ & _ & ->).
    simpl. rewrite lookup_insert_eq. by eexists.
Qed.

Lemma remove_from_keeps_keys (g : spatialGrid) (c : GridCell)
    (h : EntityHandle) :
  dom (cells g) ⊆ dom (cells (remove_from g c h)).
Proof.
  unfold remove_from. destruct (index_of h (bucket g c)); [|done].
  simpl. apply dom_insert_subseteq.
Qed.

Lemma step_keeps_keys (w w' : world) (o : op) :
  step w o = Some w' → dom (cells (grid w)) ⊆ dom (cells (grid w')).
Proof.
  destruct o as [h|h|h oldPos newPos|h pos]; simpl.
  - unfold Add. destruct (cellForPos _ _); simpl; [|done]. intros [= <-].
    simpl. apply dom_insert_subseteq.
  - unfold Remove. destruct (cellForPos _ _); simpl; [|done]. intros [= <-].
    apply remove_from_keeps_keys.
  - unfold Update. destruct (cellForPos _ oldPos) as [oc|]; simpl; [|done].
    destruct (cellForPos _ newPos) as [nc|]; simpl; [|done].
    case_decide; simpl; intros [= <-]; simpl; [done|].
    etrans; [apply (remove_from_keeps_keys (grid w) oc h)|].
    apply dom_insert_subseteq.
  - by intros [= <-].
Qed.

(** X4. Add, Remove and Update never delete a key of the map: after any
    history that returns, every cell that had a bucket still has one
    (Remove leaves an empty bucket behind). *)
Theorem history_keeps_keys (tr : list op) (w w' : world) :
  run w tr = Some w' → dom (cells (grid w)) ⊆ dom (cells (grid w')).
Proof.
  revert w. induction tr as [|o tr IH]; intros w; simpl.
  - by intros [= <-].
  - destruct (step w o) as [w1|] eqn:Hst; [|done]. simpl. intros Hr.
    etrans; [by apply (step_keeps_keys w w1 o)|by apply IH].
Qed.

(** X5. Remove lowers Count by one when the handle is in the bucket of the
    cell of its current position, and leaves Count as it is otherwise. *)
Theorem Remove_changes_Count (hp : Heap) (g g' : spatialGrid)
    (handle : EntityHandle) (cell : GridCell) :
  Remove hp g handle = Some g' →
  cellForPos g (hp handle) = Some cell →
  Count g' =
    Count g - (if bool_decide (handle ∈ bucket g cell) then 1 else 0).
Proof.
  unfold Remove. intros Hr Hc. rewrite Hc in Hr. simpl in Hr.
  injection Hr as <-. case_bool_decide as Hin.
  - by apply Count_remove_from_present.
  - rewrite bucket_remove_from_absent by done. lia.
Qed.

(** X6. Update never lowers Count: Count grows by one when the cells differ
    and the handle is not in the bucket of oldPos's cell, and is unchanged
    in every other case. *)
Theorem Update_changes_Count (g g' : spatialGrid) (handle : EntityHandle)
    (oldPos newPos : Vec3) (moved : bool) (oldCell : GridCell) :
  Update g handle oldPos newPos = Some (g', moved) →
  cellForPos g oldPos = Some oldCell →
  Count g' =
    Count g +
    (if moved && bool_decide (handle ∉ bucket g oldCell) then 1 else 0).
Proof.
  unfold Update. intros Hu Hc. rewrite Hc in Hu. simpl in Hu.
  destruct (cellForPos g newPos) as [newCell|]; [|done]. simpl in Hu.
  case_decide as Hcc; injection Hu as <- <-; simpl; [lia|].
  rewrite Count_append_to. case_bool_decide as Hin.
  - by rewrite bucket_remove_from_absent.
  - rewrite Count_remove_from_present by done. lia.
Qed.

(** X7. Whatever the state of the grid, a result of QueryNearby holds exactly
    the handles that lie in a bucket of a cell between the cells of the two
    box corners and whose current position passes the containment test. *)
Theorem QueryNearby_members (fuel : nat) (hp : Heap) (g : spatialGrid)
    (box : BBox) (r : list EntityHandle) :
  QueryNearby fuel hp g box = Some r →
  ∃ minCell maxCell,
    cellForPos g (Min box) = Some minCell ∧
    cellForPos g (Max box) = Some maxCell ∧
    ∀ h, h ∈ r ↔
         ∃ c, in_cell_range minCell maxCell c ∧ h ∈ bucket g c ∧
              Vec3Within box (hp h) = true.
Proof.
  intros Hq. pose proof Hq as Hq'. unfold QueryNearby in Hq'.
  destruct (cellForPos g (Min box)) as [minCell|] eqn:Hmin; [|done].
  destruct (cellForPos g (Max box)) as [maxCell|] eqn:Hmax; [|done].
  exists minCell, maxCell. split_and!; [done..|]. intros h.
  rewrite (QueryNearby_Some _ _ _ _ _ _ _ Hmin Hmax Hq).
  apply elem_of_nearby.
Qed.

Lemma for32_body_None {A : Type} (fuel : nat) (lo hi : Z)
    (body : Z -> A -> option A) (acc : A) :
  lo <= hi → body lo acc = None → for32 fuel lo hi body acc = None.
Proof.
  intros Hle Hb. destruct fuel as [|fuel]; simpl; [done|].
  destruct (Z.leb_spec lo hi); [|lia]. by rewrite Hb.
Qed.

(** X8. When QueryNearby returns. With the cells of the two box corners known:
    if the upper cell is below the largest int32 on both axes, QueryNearby
    returns once the fuel covers its loops; if the X range is not empty and
    reaches the largest int32, or the Z range is not empty and reaches it,
    QueryNearby never returns; if the upper cell is below the lower cell on
    X, QueryNearby returns the empty result. *)
Theorem QueryNearby_returns_or_not (hp : Heap) (g : spatialGrid) (box : BBox)
    (minCell maxCell : GridCell) :
  cellForPos g (Min box) = Some minCell →
  cellForPos g (Max box) = Some maxCell →
  (cellX maxCell < Int32.max_int → cellZ maxCell < Int32.max_int →
   ∀ fuel, enough_fuel minCell maxCell fuel →
           is_Some (QueryNearby fuel hp g box)) ∧
  (cellX maxCell = Int32.max_int ∨
   (cellX minCell <= cellX maxCell ∧ cellZ minCell <= cellZ maxCell ∧
    cellZ maxCell = Int32.max_int) →
   ∀ fuel, QueryNearby fuel hp g box = None) ∧
  (cellX maxCell < cellX minCell →
   ∀ fuel, (0 < fuel)%nat → QueryNearby fuel hp g box = Some []).
Proof.
  intros Hmin Hmax. split_and!.
  - intros HX HZ fuel Hfuel. eexists. by apply QueryNearby_enough.
  - intros [HX|(Hx & Hz & HZ)] fuel.
    + by apply (QueryNearby_diverges fuel hp g box minCell maxCell).
    + unfold QueryNearby. rewrite Hmin, Hmax. simpl.
      apply for32_body_None; [done|]. rewrite HZ.
      apply for32_diverges. by apply (cellForPos_in_range g (Min box)).
  - intros Hlt fuel Hfuel. unfold QueryNearby. rewrite Hmin, Hmax. simpl.
    destruct fuel as [|fuel]; simpl; [lia|].
    by destruct (Z.leb_spec (cellX minCell) (cellX maxCell)); [lia|].
Qed.

(** X9. On a grid whose cell size is zero, every operation that computes the
    cell of a position panics on the division: Add, Remove, Update,
    QueryNearby and QueryRadius do not return. *)
Theorem zero_cell_size_panics (g : spatialGrid) :
  cellSize g = 0 →
  (∀ hp h, Add hp g h = None) ∧
  (∀ hp h, Remove hp g h = None) ∧
  (∀ h oldPos newPos, Update g h oldPos newPos = None) ∧
  (∀ fuel hp box, QueryNearby fuel hp g box = None) ∧
  (∀ fuel hp pos radius, QueryRadius fuel hp g pos radius = None).
Proof.
  intros Hcs. split_and!; intros;
    unfold QueryRadius, QueryNearby, Add, Remove, Update;
    rewrite ?cellForPos_zero by done; reflexivity.
Qed.

(** X10. With a positive cell size the cell 0 of an axis is twice as wide as
    the others: a coordinate is in cell 0 exactly when its integer part is
    strictly between [-cellSize] and [cellSize]. *)
Theorem cell_zero_spans_both_signs (g : spatialGrid) (pos : Vec3)
    (c : GridCell) :
  0 < cellSize g →
  cellForPos g pos = Some c →
  (cellX c = 0 ↔
     - cellSize g < int32_of_float64 (vec0 pos) < cellSize g) ∧
  (cellZ c = 0 ↔
     - cellSize g < int32_of_float64 (vec2 pos) < cellSize g).
Proof.
  intros Hcs. rewrite cellForPos_positive by done. intros [= <-]. simpl.
  split; (rewrite Z.quot_small_iff by lia); lia.
Qed.

Lemma dedup_first_filter (S1 S2 : gset EntityHandle)
    (l : list EntityHandle) :
  dedup_first (S1 ∪ S2) l = filter (fun h => h ∉ S1) (dedup_first S2 l).
Proof.
  revert S2. induction l as [|h l IH]; intros S2; simpl; [done|].
  destruct (decide (h ∈ S2)) as [H2|H2].
  - rewrite decide_True by set_solver. apply IH.
  - destruct (decide (h ∈ S1)) as [H1|H1].
    + rewrite decide_True by set_solver.
      rewrite filter_cons_False by (by intros ?).
      rewrite <- IH. f_equal. set_solver.
    + rewrite decide_False by set_solver.
      rewrite filter_cons_True by done. f_equal.
      rewrite <- IH. f_equal. set_solver.
Qed.

(** X11. The result for a request is a prefix of the result for a longer
    request: QueryChunks of [l1 ++ l2] is QueryChunks of [l1] followed by
    the handles of QueryChunks of [l2] that the first does not hold. *)
Theorem QueryChunks_app (g : spatialGrid) (l1 l2 : list ChunkPos) :
  QueryChunks g (l1 ++ l2) =
    QueryChunks g l1 ++
    filter (fun h => h ∉ QueryChunks g l1) (QueryChunks g l2).
Proof.
  rewrite !QueryChunks_eq. unfold residents. rewrite bind_app.
  fold (residents g l1). fold (residents g l2).
  rewrite dedup_first_app. f_equal.
  rewrite (comm_L (∪) ∅ (list_to_set (residents g l1))).
  rewrite dedup_first_filter. apply list_filter_iff. intros h.
  rewrite elem_of_dedup_first. set_solver.
Qed.

Lemma int32_of_float64_mono (a b : float64) :
  valid a = true → valid b = true →
  fits_int32 a = true → fits_int32 b = true → lt a b = true →
  int32_of_float64 a <= int32_of_float64 b.
Proof.
  intros Va Vb Fa Fb Hlt. unfold fits_int32 in *.
  destruct (trunc a) as [za|] eqn:Ha; [|done].
  destruct (trunc b) as [zb|] eqn:Hb; [|done].
  apply in_rangeb_spec in Fa, Fb.
  rewrite (int32_of_float64_fits a za), (int32_of_float64_fits b zb) by done.
  by apply (lt_trunc_mono a b).
Qed.

(** X12. With a positive cell size the cell grows with the coordinate: when
    the X coordinates of two positions are float64 values whose integer
    parts are int32 and the first is below the second, the cell of the
    first is not after the cell of the second on X; the same on Z. *)
Theorem cellForPos_monotone (g : spatialGrid) (a b : Vec3)
    (ca cb : GridCell) :
  0 < cellSize g →
  cellForPos g a = Some ca → cellForPos g b = Some cb →
  (valid (vec0 a) && valid (vec0 b) &&
   fits_int32 (vec0 a) && fits_int32 (vec0 b) && lt (vec0 a) (vec0 b) = true →
   cellX ca <= cellX cb) ∧
  (valid (vec2 a) && valid (vec2 b) &&
   fits_int32 (vec2 a) && fits_int32 (vec2 b) && lt (vec2 a) (vec2 b) = true →
   cellZ ca <= cellZ cb).
Proof.
  intros Hcs. rewrite !cellForPos_positive by done. intros [= <-] [= <-].
  simpl. split; rewrite !andb_true_iff; intros [[[[Va Vb] Fa] Fb] Hlt];
    apply Z.quot_le_mono; (done || by apply int32_of_float64_mono).
Qed.

(** X13. A handle whose owner moved it to another cell without an Update
    cannot be removed: in a state reached under the caller's contract, if
    the cell of the handle's current position is not the cell of its
    registered position, Remove returns the grid unchanged and the handle
    stays in the bucket of its registered cell. *)
Theorem Remove_after_unreported_move (cs : Z) (hp : Heap) (tr : list op)
    (w : world) (h : EntityHandle) (p : Vec3) :
  lawful (mkWorld hp (newSpatialGrid cs)) ∅ tr = true →
  run (mkWorld hp (newSpatialGrid cs)) tr = Some w →
  registry (mkWorld hp (newSpatialGrid cs)) ∅ tr !! h = Some p →
  cellForPos (grid w) (heap w h) ≠ cellForPos (grid w) p →
  Remove (heap w) (grid w) h = Some (grid w) ∧
  ∃ c, cellForPos (grid w) p = Some c ∧ h ∈ bucket (grid w) c.
Proof.
  intros Hl Hr Hp Hne.
  pose proof (filed_run tr (mkWorld hp (newSpatialGrid cs)) w ∅
                (filed_init cs) Hl Hr) as F.
  destruct (decide (cellSize (grid w) = 0)) as [H0|H0].
  { by rewrite !cellForPos_zero in Hne. }
  destruct (cellForPos (grid w) p) as [c|] eqn:Hc;
    [|by rewrite cellForPos_eq in Hc].
  destruct (cellForPos (grid w) (heap w h)) as [c'|] eqn:Hc';
    [|by rewrite cellForPos_eq in Hc'].
  split.
  - unfold Remove. rewrite Hc'. simpl. f_equal.
    apply bucket_remove_from_absent.
    intros (p' & Hp' & Hcp')%(filed_where _ _ F). congruence.
  - exists c. split; [done|]. apply (filed_where _ _ F). eauto.
Qed.

(** X14. An Update with a wrong oldPos leaves a stale reference: in a state
    reached under the caller's contract, if the cell of oldPos is neither
    the cell the handle is filed under nor the cell of newPos, Update
    returns true, the handle stays in its old bucket and is appended to the
    bucket of newPos's cell, Count grows by one, and the handle is now in
    two cells or twice in one bucket. *)
Theorem Update_with_wrong_oldPos_duplicates (cs : Z) (hp : Heap)
    (tr : list op) (w : world) (h : EntityHandle) (p oldPos newPos : Vec3) :
  lawful (mkWorld hp (newSpatialGrid cs)) ∅ tr = true →
  run (mkWorld hp (newSpatialGrid cs)) tr = Some w →
  registry (mkWorld hp (newSpatialGrid cs)) ∅ tr !! h = Some p →
  cellForPos (grid w) oldPos ≠ cellForPos (grid w) p →
  cellForPos (grid w) oldPos ≠ cellForPos (grid w) newPos →
  ∃ g' filedCell newCell,
    Update (grid w) h oldPos newPos = Some (g', true) ∧
    cellForPos (grid w) p = Some filedCell ∧
    cellForPos (grid w) newPos = Some newCell ∧
    h ∈ bucket g' filedCell ∧
    h ∈ bucket g' newCell ∧
    Count g' = Count (grid w) + 1 ∧
    (filedCell ≠ newCell ∨ ¬ NoDup (bucket g' newCell)).
Proof.
  intros Hl Hr Hp Hne1 Hne2.
  pose proof (filed_run tr (mkWorld hp (newSpatialGrid cs)) w ∅
                (filed_init cs) Hl Hr) as F.
  destruct (decide (cellSize (grid w) = 0)) as [H0|H0].
  { by rewrite !cellForPos_zero in Hne1. }
  destruct (cellForPos (grid w) p) as [fc|] eqn:Hfc;
    [|by rewrite cellForPos_eq in Hfc].
  destruct (cellForPos (grid w) oldPos) as [oc|] eqn:Hoc;
    [|by rewrite cellForPos_eq in Hoc].
  destruct (cellForPos (grid w) newPos) as [nc|] eqn:Hnc;
    [|by rewrite cellForPos_eq in Hnc].
  assert (Hfiled : h ∈ bucket (grid w) fc)
    by (apply (filed_where _ _ F); eauto).
  assert (Habsent : h ∉ bucket (grid w) oc).
  { intros (p' & Hp' & Hcp')%(filed_where _ _ F). congruence. }
  exists (append_to (grid w) nc h), fc, nc.
  unfold Update. rewrite Hoc, Hnc. simpl.
  rewrite decide_False by congruence.
  rewrite bucket_remove_from_absent by done.
  split_and!; try done.
  - rewrite bucket_append_to. case_decide; [|done]. subst.
    apply elem_of_app. by left.
  - rewrite bucket_append_to, decide_True by done.
    apply elem_of_app. right. apply list_elem_of_here.
  - apply Count_append_to.
  - destruct (decide (fc = nc)) as [->|]; [right|by left].
    rewrite bucket_append_to, decide_True by done.
    intros (_ & Hd & _)%NoDup_app. apply (Hd h Hfiled), list_elem_of_here.
Qed.


(** X16. Every handle that QueryNearby returns is among the handles that
    QueryChunks returns for the cells between the cells of the two box
    corners. *)
Theorem QueryNearby_within_QueryChunks (fuel : nat) (hp : Heap)
    (g : spatialGrid) (box : BBox) (minCell maxCell : GridCell)
    (r : list EntityHandle) :
  cellForPos g (Min box) = Some minCell →
  cellForPos g (Max box) = Some maxCell →
  QueryNearby fuel hp g box = Some r →
  r ⊆ QueryChunks g (covered_chunks minCell maxCell).
Proof.
  intros Hmin Hmax Hq h.
  rewrite (QueryNearby_Some _ _ _ _ _ _ _ Hmin Hmax Hq).
  intros ([x z] & [Hx Hz] & Hb & _)%elem_of_nearby. simpl in *.
  rewrite QueryChunks_eq, elem_of_dedup_first. split; [|set_solver].
  unfold residents. apply list_elem_of_bind. exists (x, z). split; [done|].
  unfold covered_chunks. apply list_elem_of_bind. exists x.
  split; [|apply elem_of_seqZ; lia].
  apply list_elem_of_bind. exists z. split; [|apply elem_of_seqZ; lia].
  apply list_elem_of_here.
Qed.

Lemma Count_insert_fresh (m : gmap GridCell (list EntityHandle)) (cs : Z)
    (c : GridCell) (l : list EntityHandle) :
  m !! c = None →
  Count (mkGrid (<[c := l]> m) cs) = Count (mkGrid m cs) + Z.of_nat (length l).
Proof.
  intros Hc.
  pose proof (Count_with_cells_insert (mkGrid m cs) c l) as H.
  unfold with_cells, bucket in H. simpl in H. rewrite Hc in H. simpl in H.
  lia.
Qed.

Lemma Count_map_zero (m : gmap GridCell (list EntityHandle)) (cs : Z) :
  0 <= Count (mkGrid m cs) ∧
  (Count (mkGrid m cs) = 0 ↔ ∀ c l, m !! c = Some l → l = []).
Proof.
  induction m as [|c l m Hc [IH0 IH]] using map_ind.
  - split; [by unfold Count; simpl; rewrite map_fold_empty|].
    split; [by intros _ c l; rewrite lookup_empty|].
    intros _. unfold Count. simpl. apply map_fold_empty.
  - rewrite Count_insert_fresh by done. split; [lia|]. split.
    + intros Hz c' l'. rewrite lookup_insert. case_decide as Hcc.
      * intros [= <-]. apply nil_length_inv. lia.
      * apply IH. lia.
    + intros Hall.
      assert (l = []) as -> by (apply (Hall c); apply lookup_insert_eq).
      simpl. rewrite Z.add_0_r. apply IH. intros c' l' Hl'.
      apply (Hall c'). rewrite lookup_insert_ne; [done|]. congruence.
Qed.

(** X17. Count is never negative, and it is zero exactly when no bucket holds a
    handle: the empty buckets that Remove leaves in the map do not count. *)
Theorem Count_zero_iff_no_handle (g : spatialGrid) :
  0 <= Count g ∧ (Count g = 0 ↔ ∀ c, bucket g c = []).
Proof.
  destruct g as [m cs]. destruct (Count_map_zero m cs) as [H0 Hz].
  split; [done|]. rewrite Hz. unfold bucket. simpl. split.
  - intros Hall c. destruct (m !! c) as [l|] eqn:E; [|done]. simpl. eauto.
  - intros Hall c l Hl. specialize (Hall c). by rewrite Hl in Hall.
Qed.

End Grid.

(** ** The containment test of package cube *)

Lemma SFcompare_Lt_swap (a b : float64) :
  SFcompare a b = Some Lt → SFcompare b a = Some Gt.
Proof.
  destruct a as [[]|[]| |[] ma ea], b as [[]|[]| |[] mb eb]; simpl; try done.
  - rewrite (Z.compare_antisym ea eb). destruct (ea ?= eb); simpl; try done.
    fold (Pos.compare ma mb). fold (Pos.compare mb ma).
    rewrite (Pos.compare_antisym ma mb).
    by destruct (Pos.compare ma mb).
  - rewrite (Z.compare_antisym ea eb). destruct (ea ?= eb); simpl; try done.
    fold (Pos.compare ma mb). fold (Pos.compare mb ma).
    rewrite (Pos.compare_antisym ma mb).
    by destruct (Pos.compare ma mb).
Qed.

Lemma lt_not_ge (a b : float64) : SFltb a b = true → SFleb b a = false.
Proof.
  unfold SFltb, SFleb.
  destruct (SFcompare a b) as [[]|] eqn:E; try done.
  by rewrite (SFcompare_Lt_swap a b E).
Qed.

Lemma cube_Vec3Within_strict (box : BBox) (p : Vec3) :
  strictly_inside box p = true → cube_Vec3Within box p = true.
Proof.
  unfold strictly_inside, cube_Vec3Within, gt, ge, lt, le.
  rewrite !andb_true_iff. intros [[[[[Hx0 Hx1] Hy0] Hy1] Hz0] Hz1].
  rewrite (lt_not_ge _ _ Hx0), (lt_not_ge _ _ Hx1),
    (lt_not_ge _ _ Hz0), (lt_not_ge _ _ Hz1). simpl.
  by rewrite Hy0, Hy1.
Qed.

(** ** The properties at concrete inputs *)

Lemma Count_counts_live_handles_witness :
  ∃ w, run oor32_amd64 (mkWorld heap_AB (newSpatialGrid 16)) history_AB
         = Some w ∧
       Count (grid w) = Z.of_nat (size (live_handles history_AB)).
Proof.
  apply (Count_counts_live_handles oor32_amd64 16 heap_AB history_AB).
  vm_compute. reflexivity.
Defined.

(** C1 as stated fails: on a fresh grid with cell size 16, one Update of a
    handle that was never added, from (10, 0, 10) to (40, 0, 10), files the
    handle, and Count is 1 while no handle has been added. *)
Lemma Count_after_stray_Update :
  ∃ w, run oor32_amd64 (mkWorld heap_AB (newSpatialGrid 16))
           [OpUpdate 1%positive (pt 10 0 10) (pt 40 0 10)] = Some w ∧
       Count (grid w) = 1 ∧
       size (live_handles [OpUpdate 1%positive (pt 10 0 10) (pt 40 0 10)])
         = 0%nat ∧
       Count (grid w) ≠
         Z.of_nat (size (live_handles
                           [OpUpdate 1%positive (pt 10 0 10) (pt 40 0 10)])).
Proof.
  eexists. split; [vm_compute; reflexivity|].
  split_and!; [vm_compute; reflexivity..|vm_compute; discriminate].
Qed.

Lemma handle_occupies_one_cell_witness :
  ∃ p, registry oor32_amd64 (mkWorld heap_AB (newSpatialGrid 16)) ∅
         history_AB !! 1%positive = Some p ∧
       mkGridCell 2 0 =
         mkGridCell (Int32.wrap (int32_of_float64 oor32_amd64 (vec0 p) ÷ 16))
                    (Int32.wrap (int32_of_float64 oor32_amd64 (vec2 p) ÷ 16)) ∧
       occupies_only
         (grid (final oor32_amd64 (mkWorld heap_AB (newSpatialGrid 16))
                  history_AB))
         1%positive (mkGridCell 2 0) ∧
       NoDup (bucket
                (grid (final oor32_amd64 (mkWorld heap_AB (newSpatialGrid 16))
                         history_AB))
                (mkGridCell 2 0)).
Proof.
  apply (handle_occupies_one_cell oor32_amd64 16 heap_AB history_AB
           (final oor32_amd64 (mkWorld heap_AB (newSpatialGrid 16)) history_AB)
           1%positive (mkGridCell 2 0)).
  - vm_compute. reflexivity.
  - vm_compute. reflexivity.
  - vm_compute. apply list_elem_of_here.
Defined.

(** C2 as stated fails: with cell size 16, a handle added at (-1, 0, -1)
    is filed in cell (0, 0), while the floor formula names cell (-1, -1),
    whose bucket is empty. *)
Lemma negative_position_not_in_floor_cell :
  lawful oor32_amd64 (mkWorld heap_negative (newSpatialGrid 16)) ∅
         [OpAdd 1%positive] = true ∧
  ∃ w, run oor32_amd64 (mkWorld heap_negative (newSpatialGrid 16))
           [OpAdd 1%positive] = Some w ∧
       floor_cell (grid w) (heap w 1%positive)
         = Some (mkGridCell (-1) (-1)) ∧
       bucket (grid w) (mkGridCell (-1) (-1)) = [] ∧
       bucket (grid w) (mkGridCell 0 0) = [1%positive].
Proof.
  split; [vm_compute; reflexivity|].
  eexists. split; [vm_compute; reflexivity|].
  split_and!; vm_compute; reflexivity.
Qed.

Lemma QueryNearby_round_trip_witness :
  (∃ r, QueryNearby oor32_amd64 cube_Vec3Within 3
          (heap (final oor32_amd64 (mkWorld heap_AB (newSpatialGrid 16))
                   history_adds))
          (grid (final oor32_amd64 (mkWorld heap_AB (newSpatialGrid 16))
                   history_adds))
          box_around_A = Some r ∧ 1%positive ∈ r) ∧
  (∀ fuel r,
     QueryNearby oor32_amd64 cube_Vec3Within fuel
       (heap (final oor32_amd64 (mkWorld heap_AB (newSpatialGrid 16))
                history_adds))
       (grid (final oor32_amd64 (mkWorld heap_AB (newSpatialGrid 16))
                history_adds))
       box_beside_A = Some r → 1%positive ∉ r).
Proof.
  split.
  - refine (proj1 (QueryNearby_round_trip oor32_amd64 cube_Vec3Within
                     16 heap_AB history_adds
                     (final oor32_amd64 (mkWorld heap_AB (newSpatialGrid 16))
                        history_adds)
                     1%positive (pt 10 0 10) box_around_A
                     (mkGridCell 0 0) (mkGridCell 0 0) (mkGridCell 0 0)
                     _ _ _ _ _ _ _) _ _ _ _ _ _ 3%nat _);
      try (vm_compute; reflexivity).
    + exact cube_Vec3Within_strict.
    + unfold enough_fuel. simpl. lia.
  - refine (proj2 (QueryNearby_round_trip oor32_amd64 cube_Vec3Within
                     16 heap_AB history_adds
                     (final oor32_amd64 (mkWorld heap_AB (newSpatialGrid 16))
                        history_adds)
                     1%positive (pt 10 0 10) box_beside_A
                     (mkGridCell 1 0) (mkGridCell 1 0) (mkGridCell 0 0)
                     _ _ _ _ _ _ _) _);
      try (vm_compute; reflexivity).
    unfold in_cell_range. simpl. lia.
Defined.

(** C3 as stated fails: with cell size 1, a handle added at the origin and
    a box that strictly contains the origin and reaches X = 2147483647,
    QueryNearby returns no result at all: the X loop runs to the largest
    int32 and its counter wraps around. *)
Lemma QueryNearby_never_returns_at_max_int :
  lawful oor32_amd64 (mkWorld heap_origin (newSpatialGrid 1)) ∅
         [OpAdd 1%positive] = true ∧
  ∃ w, run oor32_amd64 (mkWorld heap_origin (newSpatialGrid 1))
           [OpAdd 1%positive] = Some w ∧
       heap w 1%positive = pt 0 0 0 ∧
       bucket (grid w) (mkGridCell 0 0) = [1%positive] ∧
       strictly_inside box_to_max_int (pt 0 0 0) = true ∧
       cube_Vec3Within box_to_max_int (pt 0 0 0) = true ∧
       ∀ fuel, QueryNearby oor32_amd64 cube_Vec3Within fuel (heap w) (grid w)
                 box_to_max_int = None.
Proof.
  split; [vm_compute; reflexivity|].
  eexists. split; [vm_compute; reflexivity|].
  split_and!; [vm_compute; reflexivity..|].
  intros fuel.
  apply (QueryNearby_diverges oor32_amd64 cube_Vec3Within fuel _ _ _
           (mkGridCell (-1) (-1)) (mkGridCell Int32.max_int 1));
    vm_compute; reflexivity.
Qed.

(** On x86-64 the same happens by the conversion: the corners of a box
    from -10^10 to 10^10 convert to the same int32, the box covers one
    far-away cell, and the handle at the origin is not found. *)
Example QueryNearby_corners_out_of_range :
  strictly_inside
    (cube_Box (of_Z (- 10 ^ 10)) (of_Z (-1)) (of_Z (- 10 ^ 10))
              (of_Z (10 ^ 10)) (of_Z 1) (of_Z (10 ^ 10)))
    (pt 0 0 0) = true ∧
  QueryNearby oor32_amd64 cube_Vec3Within 3 heap_origin
    (grid (final oor32_amd64 (mkWorld heap_origin (newSpatialGrid 16))
             [OpAdd 1%positive]))
    (cube_Box (of_Z (- 10 ^ 10)) (of_Z (-1)) (of_Z (- 10 ^ 10))
              (of_Z (10 ^ 10)) (of_Z 1) (of_Z (10 ^ 10)))
    = Some [].
Proof. split; vm_compute; reflexivity. Qed.

Lemma Update_moves_between_cells_witness :
  ∃ g' moved oldCell newCell,
    Update oor32_amd64
      (grid (final oor32_amd64 (mkWorld heap_AB (newSpatialGrid 16))
               history_adds))
      1%positive (pt 10 0 10) (pt 40 0 10) = Some (g', moved) ∧
    cellForPos oor32_amd64
      (grid (final oor32_amd64 (mkWorld heap_AB (newSpatialGrid 16))
               history_adds)) (pt 10 0 10) = Some oldCell ∧
    cellForPos oor32_amd64
      (grid (final oor32_amd64 (mkWorld heap_AB (newSpatialGrid 16))
               history_adds)) (pt 40 0 10) = Some newCell ∧
    (moved = true ↔ oldCell ≠ newCell) ∧
    (moved = false →
     g' = grid (final oor32_amd64 (mkWorld heap_AB (newSpatialGrid 16))
                  history_adds)) ∧
    (moved = true →
       bucket g' oldCell =
         remove_first 1%positive
           (bucket (grid (final oor32_amd64
                            (mkWorld heap_AB (newSpatialGrid 16))
                            history_adds)) oldCell) ∧
       bucket g' newCell =
         bucket (grid (final oor32_amd64 (mkWorld heap_AB (newSpatialGrid 16))
                         history_adds)) newCell ++ [1%positive] ∧
       ∀ c, c ≠ oldCell → c ≠ newCell →
            bucket g' c =
              bucket (grid (final oor32_amd64
                              (mkWorld heap_AB (newSpatialGrid 16))
                              history_adds)) c).
Proof.
  apply (Update_moves_between_cells oor32_amd64
           (grid (final oor32_amd64 (mkWorld heap_AB (newSpatialGrid 16))
                    history_adds))
           1%positive (pt 10 0 10) (pt 40 0 10)).
  vm_compute. discriminate.
Defined.

Lemma query_results_have_no_duplicates_witness :
  NoDup (QueryChunks
           (grid (final oor32_amd64 (mkWorld heap_AB (newSpatialGrid 16))
                    history_adds))
           [(0, 0); (1, 0); (0, 0)]) ∧
  NoDup [1%positive].
Proof.
  split.
  - apply (proj1 (query_results_have_no_duplicates oor32_amd64
                    cube_Vec3Within)).
  - apply (proj2 (query_results_have_no_duplicates oor32_amd64
                    cube_Vec3Within)
             16 heap_AB history_adds
             (final oor32_amd64 (mkWorld heap_AB (newSpatialGrid 16))
                history_adds)
             3%nat box_around_A [1%positive]);
      vm_compute; reflexivity.
Defined.

(** C5 as stated fails: after one handle is added twice, QueryNearby with
    a box around it returns the handle twice. *)
Lemma QueryNearby_returns_a_handle_twice :
  ∃ w r, run oor32_amd64 (mkWorld heap_AB (newSpatialGrid 16))
             history_double_add = Some w ∧
         QueryNearby oor32_amd64 cube_Vec3Within 3 (heap w) (grid w)
           box_around_A = Some r ∧
         r = [1%positive; 1%positive] ∧
         ¬ NoDup r.
Proof.
  eexists. eexists. split; [vm_compute; reflexivity|].
  split; [vm_compute; reflexivity|]. split; [reflexivity|].
  intros [Hin _]%NoDup_cons. apply Hin, list_elem_of_here.
Qed.

Lemma Remove_first_occurrence_or_nothing_witness :
  ∃ g' cell,
    Remove oor32_amd64 heap_AB
      (grid (final oor32_amd64 (mkWorld heap_AB (newSpatialGrid 16))
               history_adds)) 2%positive = Some g' ∧
    cellForPos oor32_amd64
      (grid (final oor32_amd64 (mkWorld heap_AB (newSpatialGrid 16))
               history_adds)) (heap_AB 2%positive) = Some cell ∧
    (2%positive ∉
       bucket (grid (final oor32_amd64 (mkWorld heap_AB (newSpatialGrid 16))
                       history_adds)) cell →
     g' = grid (final oor32_amd64 (mkWorld heap_AB (newSpatialGrid 16))
                  history_adds)) ∧
    (2%positive ∈
       bucket (grid (final oor32_amd64 (mkWorld heap_AB (newSpatialGrid 16))
                       history_adds)) cell →
     ∃ before after,
       bucket (grid (final oor32_amd64 (mkWorld heap_AB (newSpatialGrid 16))
                       history_adds)) cell = before ++ 2%positive :: after ∧
       (2%positive ∉ before) ∧
       cells g' =
         <[cell := before ++ after]>
           (cells (grid (final oor32_amd64
                           (mkWorld heap_AB (newSpatialGrid 16))
                           history_adds))) ∧
       cellSize g' =
         cellSize (grid (final oor32_amd64
                           (mkWorld heap_AB (newSpatialGrid 16))
                           history_adds))).
Proof.
  apply (Remove_first_occurrence_or_nothing oor32_amd64 heap_AB
           (grid (final oor32_amd64 (mkWorld heap_AB (newSpatialGrid 16))
                    history_adds))
           2%positive).
  vm_compute. discriminate.
Defined.

(** A request that names a chunk twice. *)
Example QueryChunks_duplicate_chunks :
  QueryChunks
    (grid (final oor32_amd64 (mkWorld heap_AB (newSpatialGrid 16))
             history_adds))
    [(1, 0); (0, 0); (1, 0); (0, 0)] = [2%positive; 1%positive].
Proof. vm_compute. reflexivity. Qed.

(** C8. QueryRadius returns exactly the result of QueryNearby on the box
    with corners [pos - (r,r,r)] and [pos + (r,r,r)], on every platform and
    for every box constructor and containment test. No distance is
    tested: with cell size 16, a handle at (9, 0, 9) is returned for the
    radius 10 around the origin, and its distance from the origin exceeds
    10. *)
Theorem QueryRadius_is_a_box_query :
  (∀ oor32 Box Vec3Within fuel hp g pos radius,
     QueryRadius oor32 Box Vec3Within fuel hp g pos radius =
       QueryNearby oor32 Vec3Within fuel hp g (radius_box Box pos radius)) ∧
  (∃ r h,
     QueryRadius oor32_amd64 cube_Box cube_Vec3Within 3 heap_corner
       (grid (final oor32_amd64 (mkWorld heap_corner (newSpatialGrid 16))
                [OpAdd 5%positive]))
       (pt 0 0 0) 10 = Some r ∧
     h ∈ r ∧
     farther_than (heap_corner h) (pt 0 0 0) 10 = true).
Proof.
  split.
  - intros. reflexivity.
  - exists [5%positive], 5%positive. split_and!.
    + vm_compute. reflexivity.
    + apply list_elem_of_here.
    + vm_compute. reflexivity.
Qed.

Lemma chunk_coordinates_are_cell_coordinates_witness :
  cellSize (newSpatialGrid 16) = 16.
Proof.
  refine (proj2 (proj2 (chunk_coordinates_are_cell_coordinates
                          (newSpatialGrid 16) (0, 0))) 16 _ _).
  - unfold Int32.max_int. lia.
  - intros x Hx. simpl. unfold chunk_coord.
    rewrite div_positive.
    + f_equal. apply Z.quot_div_nonneg; lia.
    + lia.
    + unfold Int32.in_range, Int32.min_int, Int32.max_int in *. lia.
Defined.

(** At a negative block coordinate the cell is not the chunk coordinate,
    even when the cell size is the chunk edge length. *)
Example cell_is_not_chunk_below_zero :
  Int32.div (-1) 16 = Some 0 ∧ chunk_coord 16 (-1) = -1.
Proof. split; reflexivity. Qed.

(** ** The further properties at concrete inputs *)

Lemma Add_appends_unconditionally_witness :
  ∃ g', Add oor32_amd64 heap_AB grid_AB 1%positive = Some g' ∧
        bucket g' (mkGridCell 0 0) = [1%positive; 1%positive] ∧
        Count g' = Count grid_AB + 1.
Proof.
  destruct (Add_appends_unconditionally oor32_amd64 heap_AB grid_AB 1%positive)
    as (g' & cell & HA & Hc & Hb & _ & HC & _); [vm_compute; discriminate|].
  assert (cell = mkGridCell 0 0) as -> by (vm_compute in Hc; congruence).
  exists g'. split_and!; [exact HA|exact Hb|exact HC].
Defined.

Lemma Add_then_Remove_restores_witness :
  ∃ g1 g2, Add oor32_amd64 heap_AB grid_AB 3%positive = Some g1 ∧
           Remove oor32_amd64 heap_AB g1 3%positive = Some g2 ∧
           Count g2 = Count grid_AB ∧
           bucket g2 (mkGridCell 1 0) = bucket grid_AB (mkGridCell 1 0).
Proof.
  destruct (Add_then_Remove_restores oor32_amd64 heap_AB grid_AB 3%positive)
    as (g1 & g2 & cell & HA & HR & Hc & HC & _ & _ & Hb & _);
    [vm_compute; discriminate|].
  assert (cell = mkGridCell 1 0) as -> by (vm_compute in Hc; congruence).
  exists g1, g2. split_and!; [exact HA|exact HR|exact HC|].
  apply Hb. vm_compute. intros H. apply list_elem_of_singleton in H.
  discriminate.
Defined.

Lemma history_keeps_keys_witness :
  dom (cells grid_AB) ⊆
  dom (cells (grid (final oor32_amd64 (mkWorld heap_AB grid_AB)
                      [OpRemove 1%positive; OpRemove 2%positive]))).
Proof.
  apply (history_keeps_keys oor32_amd64
           [OpRemove 1%positive; OpRemove 2%positive]
           (mkWorld heap_AB grid_AB)
           (final oor32_amd64 (mkWorld heap_AB grid_AB)
              [OpRemove 1%positive; OpRemove 2%positive])).
  vm_compute. reflexivity.
Defined.

Lemma Remove_changes_Count_witness :
  Count (mkGrid (<[mkGridCell 1 0 := []]> (cells grid_AB)) 16) =
    Count grid_AB -
    (if bool_decide (2%positive ∈ bucket grid_AB (mkGridCell 1 0))
     then 1 else 0).
Proof.
  apply (Remove_changes_Count oor32_amd64 heap_AB grid_AB
           (mkGrid (<[mkGridCell 1 0 := []]> (cells grid_AB)) 16)
           2%positive (mkGridCell 1 0));
    vm_compute; reflexivity.
Defined.

Lemma Update_changes_Count_witness :
  Count (mkGrid (<[mkGridCell 2 0 := [3%positive]]> (cells grid_AB)) 16) =
    Count grid_AB +
    (if true && bool_decide (3%positive ∉ bucket grid_AB (mkGridCell 0 0))
     then 1 else 0).
Proof.
  apply (Update_changes_Count oor32_amd64 grid_AB
           (mkGrid (<[mkGridCell 2 0 := [3%positive]]> (cells grid_AB)) 16)
           3%positive (pt 10 0 10) (pt 40 0 10) true (mkGridCell 0 0));
    vm_compute; reflexivity.
Defined.

Lemma QueryNearby_members_witness :
  ∃ minCell maxCell,
    cellForPos oor32_amd64 grid_AB (Min box_around_A) = Some minCell ∧
    cellForPos oor32_amd64 grid_AB (Max box_around_A) = Some maxCell ∧
    ∀ h, h ∈ [1%positive] ↔
         ∃ c, in_cell_range minCell maxCell c ∧ h ∈ bucket grid_AB c ∧
              cube_Vec3Within box_around_A (heap_AB h) = true.
Proof.
  apply (QueryNearby_members oor32_amd64 cube_Vec3Within 3 heap_AB grid_AB
           box_around_A [1%positive]).
  vm_compute. reflexivity.
Defined.

Lemma QueryNearby_returns_or_not_witness :
  is_Some (QueryNearby oor32_amd64 cube_Vec3Within 3 heap_AB grid_AB
             box_around_A) ∧
  (∀ fuel, QueryNearby oor32_amd64 cube_Vec3Within fuel heap_origin
             (newSpatialGrid 1) box_to_max_int = None).
Proof.
  split.
  - refine (proj1 (QueryNearby_returns_or_not oor32_amd64 cube_Vec3Within
                     heap_AB grid_AB box_around_A
                     (mkGridCell 0 0) (mkGridCell 0 0) _ _) _ _ 3%nat _);
      try (vm_compute; reflexivity).
    unfold enough_fuel. simpl. lia.
  - refine (proj1 (proj2 (QueryNearby_returns_or_not oor32_amd64
                            cube_Vec3Within heap_origin (newSpatialGrid 1)
                            box_to_max_int
                            (mkGridCell (-1) (-1))
                            (mkGridCell Int32.max_int 1) _ _)) _);
      [vm_compute; reflexivity..|].
    left. reflexivity.
Defined.

Lemma zero_cell_size_panics_witness :
  Add oor32_amd64 heap_AB (newSpatialGrid 0) 1%positive = None.
Proof.
  apply (proj1 (zero_cell_size_panics oor32_amd64 cube_Box cube_Vec3Within
                  (newSpatialGrid 0) eq_refl)).
Defined.

Lemma cell_zero_spans_both_signs_witness :
  - cellSize grid_AB < int32_of_float64 oor32_amd64 (vec0 (pt (-15) 0 15))
    < cellSize grid_AB.
Proof.
  destruct (cell_zero_spans_both_signs oor32_amd64 grid_AB (pt (-15) 0 15)
              (mkGridCell 0 0)) as [[H _] _]; [vm_compute; reflexivity..|].
  apply H. reflexivity.
Defined.

Lemma cellForPos_monotone_witness :
  cellX (mkGridCell 0 0) <= cellX (mkGridCell 1 0).
Proof.
  refine (proj1 (cellForPos_monotone oor32_amd64 grid_AB
                   (pt 10 0 10) (pt 20 0 10)
                   (mkGridCell 0 0) (mkGridCell 1 0) _ _ _) _);
    vm_compute; reflexivity.
Defined.

Lemma Remove_after_unreported_move_witness :
  Remove oor32_amd64
    (heap (final oor32_amd64 (mkWorld heap_AB (newSpatialGrid 16))
             history_moved))
    (grid (final oor32_amd64 (mkWorld heap_AB (newSpatialGrid 16))
             history_moved))
    1%positive =
    Some (grid (final oor32_amd64 (mkWorld heap_AB (newSpatialGrid 16))
                  history_moved)) ∧
  ∃ c, cellForPos oor32_amd64
         (grid (final oor32_amd64 (mkWorld heap_AB (newSpatialGrid 16))
                  history_moved)) (pt 10 0 10) = Some c ∧
       1%positive ∈
         bucket (grid (final oor32_amd64 (mkWorld heap_AB (newSpatialGrid 16))
                         history_moved)) c.
Proof.
  apply (Remove_after_unreported_move oor32_amd64 16 heap_AB history_moved
           (final oor32_amd64 (mkWorld heap_AB (newSpatialGrid 16))
              history_moved)
           1%positive (pt 10 0 10));
    try (vm_compute; reflexivity).
  vm_compute. discriminate.
Defined.

Lemma Update_with_wrong_oldPos_duplicates_witness :
  ∃ g', Update oor32_amd64
          (grid (final oor32_amd64 (mkWorld heap_AB (newSpatialGrid 16))
                   history_adds))
          1%positive (pt 100 0 10) (pt 40 0 10) = Some (g', true) ∧
        1%positive ∈ bucket g' (mkGridCell 0 0) ∧
        1%positive ∈ bucket g' (mkGridCell 2 0).
Proof.
  destruct (Update_with_wrong_oldPos_duplicates oor32_amd64 16 heap_AB
              history_adds
              (final oor32_amd64 (mkWorld heap_AB (newSpatialGrid 16))
                 history_adds)
              1%positive (pt 10 0 10) (pt 100 0 10) (pt 40 0 10))
    as (g' & fc & nc & HU & Hfc & Hnc & H1 & H2 & _);
    try (vm_compute; reflexivity); try (vm_compute; discriminate).
  assert (fc = mkGridCell 0 0) as -> by (vm_compute in Hfc; congruence).
  assert (nc = mkGridCell 2 0) as -> by (vm_compute in Hnc; congruence).
  exists g'. split_and!; [exact HU|exact H1|exact H2].
Defined.


Lemma QueryNearby_within_QueryChunks_witness :
  [1%positive] ⊆
  QueryChunks grid_AB (covered_chunks (mkGridCell 0 0) (mkGridCell 0 0)).
Proof.
  apply (QueryNearby_within_QueryChunks oor32_amd64 cube_Vec3Within 3 heap_AB
           grid_AB box_around_A (mkGridCell 0 0) (mkGridCell 0 0)
           [1%positive]);
    vm_compute; reflexivity.
Defined.
